(** * Macaroon root-key store and account ledger

    A shallow embedding of [macaroons/store.go] (the password-protected
    root-key store) and of the account ledger (the fixed 63-byte account
    record and its bolt-backed storage), together with the properties
    their specification states about them.

    The packages the two files import (bbolt, snacl, time,
    encoding/binary, crypto/rand) are not part of the repository.  Each is
    represented by what the code uses of it: bbolt by a sorted
    key/value bucket with rollback, snacl by an interface with laws, the
    binary form of [time.Time] by an interface and by the codec of
    package time itself, and each interface comes with a concrete
    instance on which the statements are evaluated. *)

From Stdlib Require Import String.
From Stdlib Require Import ZArith NArith List Bool Lia.
From Stdlib Require Import Strings.Byte.
Import ListNotations.

Set Implicit Arguments.

(* ================================================================== *)
(** * Part I: the model                                                *)
(* ================================================================== *)

(** ** Go values *)

Definition bytes := list byte.

(** The error values the two files can return.  The sentinels are the
    package-level [fmt.Errorf] variables; [ErrRootKeyMissing] is the
    formatted error of [Get]; [ErrForeign] is any error made by another
    package (it is never equal to one of the sentinels). *)
Inductive error : Type :=
| ErrMalformed
| ErrAccNotFound
| ErrAlreadyUnlocked
| ErrStoreLocked
| ErrPasswordRequired
| ErrEncKeyNotFound
| ErrRootKeyMissing (id : bytes)
| ErrForeign (pkg msg : string).

(** A Go result [(v, err)] of which exactly one side is meaningful. *)
Inductive result (A : Type) : Type :=
| Ok (a : A)
| Err (e : error).
Arguments Ok {A} a.
Arguments Err {A} e.

(** [make([]byte, n)] *)
Definition make (n : nat) : bytes := repeat x00 n.

(** The builtin [copy(dst, src)]: the first [min (len dst) (len src)]
    elements of [dst] are overwritten, its length is kept. *)
Fixpoint copy (dst src : bytes) : bytes :=
  match dst, src with
  | _ :: dst', s :: src' => s :: copy dst' src'
  | _, _ => dst
  end.

(** A write [f] made through the sub-slice [buf[lo:hi]]: the sub-slice
    shares the buffer, so the buffer sees the write. *)
Definition through (lo hi : nat) (f : bytes -> bytes) (buf : bytes) : bytes :=
  firstn lo buf ++ f (firstn (hi - lo) (skipn lo buf)) ++ skipn hi buf.

(** [byte(v)] for an integer [v]: the low eight bits. *)
Definition byte_of_Z (v : Z) : byte :=
  match Byte.of_N (Z.to_N (Z.land v 255)) with
  | Some b => b
  | None => x00
  end.

Definition Z_of_byte (b : byte) : Z := Z.of_N (Byte.to_N b).

(** Two's-complement reading of the low [w] bits ([int64(x)], [int32(x)],
    [int16(x)]). *)
Definition to_signed (w : Z) (z : Z) : Z :=
  (z + 2 ^ (w - 1)) mod 2 ^ w - 2 ^ (w - 1).

(** ** A state-and-error monad for methods with a receiver *)

Definition M (S A : Type) : Type := S -> result A * S.

Definition ret {S A : Type} (a : A) : M S A := fun s => (Ok a, s).

Definition throw {S A : Type} (e : error) : M S A := fun s => (Err e, s).

Definition bind {S A B : Type} (m : M S A) (k : A -> M S B) : M S B :=
  fun s =>
    match m s with
    | (Ok a, s') => k a s'
    | (Err e, s') => (Err e, s')
    end.

Definition gets {S A : Type} (f : S -> A) : M S A := fun s => (Ok (f s), s).

Definition modify {S : Type} (f : S -> S) : M S unit := fun s => (Ok tt, f s).

(** [v, err := f(...); if err != nil { return err }] *)
Definition try {S A : Type} (r : result A) : M S A := fun s => (r, s).

Declare Scope go_scope.
Delimit Scope go_scope with go.
Notation "x <- m ;; k" := (bind m (fun x => k))
  (at level 61, m at next level, right associativity) : go_scope.
Notation "m ;;; k" := (bind m (fun _ => k))
  (at level 61, right associativity) : go_scope.

(** ** encoding/binary *)

Module binary.

(** The [n] low bytes of [v], least significant first. *)
Fixpoint le_bytes (n : nat) (v : Z) : bytes :=
  match n with
  | O => []
  | S n' => byte_of_Z v :: le_bytes n' (Z.shiftr v 8)
  end.

Fixpoint le_uint (bs : bytes) : Z :=
  match bs with
  | [] => 0
  | b :: bs' => Z.lor (Z_of_byte b) (Z.shiftl (le_uint bs') 8)
  end.

(** [binary.LittleEndian.PutUint64(b, v)] *)
Definition PutUint64 (b : bytes) (v : Z) : bytes := copy b (le_bytes 8 v).

(** [binary.LittleEndian.Uint64(b)] *)
Definition Uint64 (b : bytes) : Z := le_uint (firstn 8 b).

(** Most significant byte first, as package time writes its fields. *)
Definition be_bytes (n : nat) (v : Z) : bytes := rev (le_bytes n v).
Definition be_uint (bs : bytes) : Z := le_uint (rev bs).

End binary.

(** ** time: the binary form of [time.Time] *)

Module time.

(** What the account code uses of [time.Time]: the zero value, the two
    methods of [encoding.BinaryMarshaler] / [BinaryUnmarshaler], and
    [Equal], with which the repository's test compares time stamps. *)
Class Codec : Type := {
  Time : Type;
  zero : Time;
  MarshalBinary : Time -> result bytes;
  UnmarshalBinary : bytes -> result Time;
  Equal : Time -> Time -> bool
}.

(** *** The codec of Go's package time

    [type Time struct { wall uint64; ext int64; loc *Location }].  With
    the top bit of [wall] set the time carries a monotonic reading:
    [wall] then holds 33 bits of seconds since 1885 and 30 bits of
    nanoseconds, and [ext] the monotonic clock; otherwise [wall] holds
    the nanoseconds and [ext] the seconds since year 1.

    Of the location the codec uses the offset only: [None] is UTC,
    [Some off] a location (fixed or local) that is [off] seconds east
    of UTC at that instant. *)
Record GoTime : Type := { wall : Z; ext : Z; loc : option Z }.

Definition hasMonotonic : Z := 2 ^ 63.
Definition nsecMask : Z := 2 ^ 30 - 1.
Definition nsecShift : Z := 30.
Definition wallToInternal : Z :=
  (1884 * 365 + 1884 / 4 - 1884 / 100 + 1884 / 400) * 86400.

(** [uint64(x)] *)
Definition uint64 (x : Z) : Z := x mod 2 ^ 64.

(** [t.nsec()] *)
Definition nsec (t : GoTime) : Z := to_signed 32 (Z.land (wall t) nsecMask).

(** [t.sec()] *)
Definition sec (t : GoTime) : Z :=
  if negb (Z.land (wall t) hasMonotonic =? 0)%Z then
    to_signed 64
      (wallToInternal +
       to_signed 64 (Z.shiftr (uint64 (Z.shiftl (wall t) 1)) (nsecShift + 1)))
  else ext t.

(** [t.stripMono()] *)
Definition stripMono (t : GoTime) : GoTime :=
  if negb (Z.land (wall t) hasMonotonic =? 0)%Z then
    {| wall := Z.land (wall t) nsecMask; ext := sec t; loc := loc t |}
  else t.

(** [t.setLoc(loc)] *)
Definition setLoc (l : option Z) (t : GoTime) : GoTime :=
  let t := stripMono t in
  {| wall := wall t; ext := ext t; loc := l |}.

Definition timeBinaryVersionV1 : byte := x01.
Definition timeBinaryVersionV2 : byte := x02.

(** [t.MarshalBinary()]: version 1 is 15 bytes long; a zone whose
    offset is not a whole number of minutes takes version 2, with a
    sixteenth byte for the seconds. *)
Definition GoMarshalBinary (t : GoTime) : result bytes :=
  let enc (version : byte) (offsetMin offsetSec : Z) : bytes :=
    [version] ++
    binary.be_bytes 8 (sec t) ++
    binary.be_bytes 4 (nsec t) ++
    binary.be_bytes 2 offsetMin ++
    (if Byte.eqb version timeBinaryVersionV2 then [byte_of_Z offsetSec]
     else []) in
  match loc t with
  | None => Ok (enc timeBinaryVersionV1 (-1)%Z 0%Z)
  | Some offset =>
      let version :=
        if negb (Z.rem offset 60 =? 0)%Z then timeBinaryVersionV2
        else timeBinaryVersionV1 in
      let offsetSec :=
        if negb (Z.rem offset 60 =? 0)%Z then to_signed 8 (Z.rem offset 60)
        else 0%Z in
      let offset := Z.quot offset 60 in
      if ((offset <? -32768) || (offset =? -1) || (offset >? 32767))%Z then
        Err (ErrForeign "time"%string
               "Time.MarshalBinary: unexpected zone offset"%string)
      else Ok (enc version (to_signed 16 offset) offsetSec)
  end.

(** [t.UnmarshalBinary(data)] into a zero [Time].  The nanoseconds are
    stored in [wall] as they are read, and [setLoc] strips what then
    looks like a monotonic reading.  The location is UTC for an offset
    of -1 minute, and else one with the offset read ([time.Local] when
    its offset agrees, a fixed zone otherwise); in binary version 2 the
    sixteenth byte is added to the offset as an unsigned number. *)
Definition GoUnmarshalBinary (data : bytes) : result GoTime :=
  let buf := data in
  match buf with
  | [] => Err (ErrForeign "time"%string "Time.UnmarshalBinary: no data"%string)
  | version :: _ =>
      if negb (Byte.eqb version timeBinaryVersionV1) &&
         negb (Byte.eqb version timeBinaryVersionV2) then
        Err (ErrForeign "time"%string
               "Time.UnmarshalBinary: unsupported version"%string)
      else
        let wantLen := 1 + 8 + 4 + 2 in
        let wantLen :=
          if Byte.eqb version timeBinaryVersionV2 then wantLen + 1
          else wantLen in
        if negb (length buf =? wantLen) then
          Err (ErrForeign "time"%string
                 "Time.UnmarshalBinary: invalid length"%string)
        else
          let buf := skipn 1 buf in
          let sec := to_signed 64 (binary.be_uint (firstn 8 buf)) in
          let buf := skipn 8 buf in
          let nsec := to_signed 32 (binary.be_uint (firstn 4 buf)) in
          let buf := skipn 4 buf in
          let offset := (to_signed 16 (binary.be_uint (firstn 2 buf)) * 60)%Z in
          let offset :=
            if Byte.eqb version timeBinaryVersionV2 then
              (offset + Z_of_byte (nth 2 buf x00))%Z
            else offset in
          let t := {| wall := uint64 nsec; ext := sec; loc := None |} in
          Ok (setLoc (if (offset =? -1 * 60)%Z then None else Some offset) t)
  end.

(** [t.Equal(u)]: the same instant, whatever the locations. *)
Definition GoEqual (t u : GoTime) : bool :=
  if negb (Z.land (Z.land (wall t) (wall u)) hasMonotonic =? 0)%Z then
    (ext t =? ext u)%Z
  else ((sec t =? sec u) && (nsec t =? nsec u))%Z.

Definition Go : Codec := {|
  Time := GoTime;
  zero := {| wall := 0; ext := 0; loc := None |};
  MarshalBinary := GoMarshalBinary;
  UnmarshalBinary := GoUnmarshalBinary;
  Equal := GoEqual
|}.

(** The range of the two integer fields. *)
Definition valid (t : GoTime) : Prop :=
  (0 <= wall t < 2 ^ 64)%Z /\ (- 2 ^ 63 <= ext t < 2 ^ 63)%Z.

(** UTC, or a zone a whole number of minutes from UTC that
    [MarshalBinary] accepts. *)
Definition whole_minutes (t : GoTime) : Prop :=
  match loc t with
  | None => True
  | Some offset =>
      Z.rem offset 60 = 0%Z /\
      (-32768 <= Z.quot offset 60 <= 32767)%Z /\ Z.quot offset 60 <> (-1)%Z
  end.

(** [time.Date] and [time.Unix] make times without a monotonic
    reading: [sec] seconds since year 1 and [nsec] nanoseconds. *)
Definition wallclock (sec nsec : Z) (l : option Z) : GoTime :=
  {| wall := nsec; ext := sec; loc := l |}.

(** [time.Now()] makes a time with a monotonic reading [mono], as long
    as the wall clock is between 1885 and 2157. *)
Definition reading (sec nsec mono : Z) (l : option Z) : GoTime :=
  {| wall := Z.lor hasMonotonic
               (Z.lor (Z.shiftl (sec - wallToInternal) nsecShift) nsec);
     ext := mono; loc := l |}.

End time.

(** ** bbolt: one bucket of a transactional key/value store *)

Module bolt.

(** [bytes.Compare] *)
Fixpoint compare (a b : bytes) : comparison :=
  match a, b with
  | [], [] => Eq
  | [], _ :: _ => Lt
  | _ :: _, [] => Gt
  | x :: a', y :: b' =>
      match N.compare (Byte.to_N x) (Byte.to_N y) with
      | Eq => compare a' b'
      | c => c
      end
  end.

(** The pairs of a bucket, in key order.  A key whose value is [None]
    names a nested bucket: [Get] and [ForEach] give [nil] for it. *)
Definition Bucket : Type := list (bytes * option bytes).

Fixpoint seek (key : bytes) (b : Bucket) : option (option bytes) :=
  match b with
  | [] => None
  | (k, v) :: b' =>
      match compare key k with
      | Eq => Some v
      | _ => seek key b'
      end
  end.

(** The value [Bucket.Get] returns; [nil] and the empty slice are both
    [[]], which is all [len] can tell. *)
Definition value (key : bytes) (b : Bucket) : bytes :=
  match seek key b with
  | Some (Some v) => v
  | _ => []
  end.

Fixpoint insert (key value : bytes) (b : Bucket) : Bucket :=
  match b with
  | [] => [(key, Some value)]
  | (k, v) :: b' =>
      match compare key k with
      | Eq => (key, Some value) :: b'
      | Lt => (key, Some value) :: b
      | Gt => (k, v) :: insert key value b'
      end
  end.

Definition MaxKeySize : Z := 32768.
Definition MaxValueSize : Z := 2 ^ 31 - 2.

Definition ErrKeyRequired := ErrForeign "bolt"%string "key required"%string.
Definition ErrKeyTooLarge := ErrForeign "bolt"%string "key too large"%string.
Definition ErrValueTooLarge := ErrForeign "bolt"%string "value too large"%string.
Definition ErrIncompatibleValue := ErrForeign "bolt"%string "incompatible value"%string.

(** [Bucket.Put] in a writable transaction. *)
Definition put (key value : bytes) (b : Bucket) : result Bucket :=
  if length key =? 0 then Err ErrKeyRequired
  else if (Z.of_nat (length key) >? MaxKeySize)%Z then Err ErrKeyTooLarge
  else if (Z.of_nat (length value) >? MaxValueSize)%Z then Err ErrValueTooLarge
  else match seek key b with
       | Some None => Err ErrIncompatibleValue
       | _ => Ok (insert key value b)
       end.

(** What a transaction did to the store, newest first. *)
Inductive Event : Type :=
| EvBegin (writable : bool)
| EvGet (key : bytes)
| EvPut (key value : bytes)
| EvForEach
| EvCommit
| EvRollback.

(** The handle [*bolt.DB]: the bucket of the store that wraps it, and
    the record of the accesses made through the handle. *)
Record DB : Type := { bucket : Bucket; log : list Event }.

Definition note (e : Event) (d : DB) : DB :=
  {| bucket := bucket d; log := e :: log d |}.

(** A state from which the handle can be reached (the stores embed
    [*bolt.DB]). *)
Class Handle (S : Type) : Type := {
  getDB : S -> DB;
  setDB : DB -> S -> S
}.

#[global] Instance Handle_DB : Handle DB :=
  {| getDB := fun d => d; setDB := fun d _ => d |}.

(** A closure sees the handle of its receiver beside the variables it
    captures. *)
#[global] Instance Handle_captured (S V : Type) (H : Handle S) : Handle (S * V) :=
  {| getDB := fun s => getDB (fst s);
     setDB := fun d s => (setDB d (fst s), snd s) |}.

(** What the storage engine does to one transaction: it may refuse to
    begin it, and it may fail to end it (the commit of [Update], the
    closing rollback of [View]). *)
Record Fault : Type := { begin_err : option error; end_err : option error }.

Definition healthy : Fault := {| begin_err := None; end_err := None |}.

Section Tx.
Context {S : Type} {H : Handle S}.

(** [tx.Bucket(name).Get(key)] *)
Definition Get (key : bytes) : M S bytes :=
  fun s =>
    let d := getDB s in
    (Ok (value key (bucket d)), setDB (note (EvGet key) d) s).

(** [tx.Bucket(name).Put(key, value)] *)
Definition Put (key val : bytes) : M S unit :=
  fun s =>
    let d := getDB s in
    match put key val (bucket d) with
    | Err e => (Err e, s)
    | Ok b' => (Ok tt, setDB {| bucket := b'; log := EvPut key val :: log d |} s)
    end.

Fixpoint each (fn : bytes -> option bytes -> M S unit) (items : Bucket) : M S unit :=
  match items with
  | [] => ret tt
  | (k, v) :: items' => bind (fn k v) (fun _ => each fn items')
  end.

(** [tx.Bucket(name).ForEach(fn)]: [fn] on every pair in key order,
    stopping at the first error. *)
Definition ForEach (fn : bytes -> option bytes -> M S unit) : M S unit :=
  fun s =>
    let d := getDB s in
    each fn (bucket d) (setDB (note EvForEach d) s).

(** Undo the writes made since [s0], keeping everything that is not
    in the store (the log, and whatever the closure assigned). *)
Definition rollback (s0 s1 : S) : S :=
  setDB {| bucket := bucket (getDB s0); log := EvRollback :: log (getDB s1) |} s1.

(** [db.Update(fn)]: begin, run [fn], and commit if it returned nil. *)
Definition Update (io : Fault) (fn : M S unit) : M S unit :=
  fun s =>
    match begin_err io with
    | Some e => (Err e, s)
    | None =>
        match fn (setDB (note (EvBegin true) (getDB s)) s) with
        | (Err e, s1) => (Err e, rollback s s1)
        | (Ok _, s1) =>
            match end_err io with
            | Some e => (Err e, rollback s s1)
            | None => (Ok tt, setDB (note EvCommit (getDB s1)) s1)
            end
        end
    end.

(** [db.View(fn)]: begin read-only, run [fn], roll back. *)
Definition View (io : Fault) (fn : M S unit) : M S unit :=
  fun s =>
    match begin_err io with
    | Some e => (Err e, s)
    | None =>
        match fn (setDB (note (EvBegin false) (getDB s)) s) with
        | (Err e, s1) => (Err e, rollback s s1)
        | (Ok _, s1) =>
            match end_err io with
            | Some e => (Err e, rollback s s1)
            | None => (Ok tt, rollback s s1)
            end
        end
    end.

End Tx.

End bolt.

(** [bytes.Equal] *)
Definition bytes_eqb (a b : bytes) : bool :=
  match bolt.compare a b with
  | Eq => true
  | _ => false
  end.

(** ** crypto/rand *)

Module rand.

(** A state from which the process-wide [rand.Reader] can be reached;
    the bytes it will deliver are the pool. *)
Class Source (S : Type) : Type := {
  pool : S -> bytes;
  setPool : bytes -> S -> S
}.

#[global] Instance Source_captured (S V : Type) (H : Source S) : Source (S * V) :=
  {| pool := fun s => pool (fst s);
     setPool := fun p s => (setPool p (fst s), snd s) |}.

(** [io.EOF] and [io.ErrUnexpectedEOF] *)
Definition EOF := ErrForeign "io"%string "EOF"%string.
Definition ErrUnexpectedEOF := ErrForeign "io"%string "unexpected EOF"%string.

(** [io.ReadFull(rand.Reader, b)] for a [b] of [n] bytes, the reader
    delivering the bytes of the pool and then [io.EOF]: [n] fresh bytes
    when there are as many; [io.EOF] when nothing could be read;
    [io.ErrUnexpectedEOF] when fewer than [n] bytes could be read, which
    are then gone from the reader. *)
Definition ReadFull {S : Type} {H : Source S} (n : nat) : M S bytes :=
  fun s =>
    if length (pool s) <? n then
      if length (pool s) =? 0 then (Err EOF, s)
      else (Err ErrUnexpectedEOF, setPool [] s)
    else (Ok (firstn n (pool s)), setPool (skipn n (pool s)) s).

(** [rand.Read(b)] of crypto/rand for a [b] of [n] bytes: it reads
    with [io.ReadFull] and never returns an error; when the reader
    fails the process is terminated ("crypto/rand: failed to read random
    data"), which is [None]. *)
Definition Read {S : Type} {H : Source S} (n : nat) : S -> option (bytes * S) :=
  fun s =>
    match ReadFull n s with
    | (Ok b, s) => Some (b, s)
    | (Err _, _) => None
    end.

End rand.

(** A receiver together with the process-wide [rand.Reader]. *)
Record World (R : Type) : Type := { self : R; Reader : bytes }.

#[global] Instance Source_World (R : Type) : rand.Source (World R) :=
  {| rand.pool := fun w => Reader w;
     rand.setPool := fun p w => {| self := self w; Reader := p |} |}.

#[global] Instance Handle_World (R : Type) (H : bolt.Handle R) : bolt.Handle (World R) :=
  {| bolt.getDB := fun w => bolt.getDB (self w);
     bolt.setDB := fun d w => {| self := bolt.setDB d (self w); Reader := Reader w |} |}.

(** Assignment to a field of the receiver, and access to a captured
    variable, from a closure. *)
Definition update_receiver {R V : Type} (f : R -> R) : M (World R * V) unit :=
  modify (fun s => ({| self := f (self (fst s)); Reader := Reader (fst s) |}, snd s)).

Definition captured {S V : Type} : M (S * V) V := gets snd.

Definition assign {S V : Type} (v : V) : M (S * V) unit :=
  modify (fun s => (fst s, v)).

(** Run a closure body that captures a variable initialised to [v0];
    afterwards the variable is still there, whatever the outcome. *)
Definition with_captured {S V : Type} (v0 : V) (m : M (S * V) unit)
  : S -> (result unit * V) * S :=
  fun s => let '(r, (s', v)) := m (s, v0) in ((r, v), s').

(** ** snacl: password-derived secret keys *)

Module snacl.

Definition KeySize : nat := 32.
Definition NonceSize : nat := 24.
Definition DefaultN : Z := 16384.
Definition DefaultR : Z := 8.
Definition DefaultP : Z := 1.

(** What the store uses of [snacl.SecretKey].  A [SecretKey] is a key
    with its derivation parameters; [Parameters] is what [Unmarshal]
    leaves in a fresh [SecretKey] before [DeriveKey] fills the key in.
    The salt of [NewSecretKey] and the nonce of [Encrypt] are the bytes
    the two read from [rand.Reader]. *)
Class Scheme : Type := {
  SecretKey : Type;
  Parameters : Type;
  NewSecretKey : bytes -> Z -> Z -> Z -> bytes -> result SecretKey;
  Marshal : SecretKey -> bytes;
  Unmarshal : bytes -> result Parameters;
  DeriveKey : Parameters -> bytes -> result SecretKey;
  Encrypt : SecretKey -> bytes -> bytes -> result bytes;
  Decrypt : SecretKey -> bytes -> result bytes
}.

(** The contract of the primitive: stored parameters and the password
    give the key back, decryption inverts encryption, a ciphertext
    opens under one key only, and different passwords derive different
    keys from the same parameters. *)
Class Lawful (C : Scheme) : Prop := {
  derive_new :
    forall pw N r p salt k, NewSecretKey pw N r p salt = Ok k ->
      exists ps, Unmarshal (Marshal k) = Ok ps /\ DeriveKey ps pw = Ok k;
  marshal_nonempty :
    forall k, Marshal k <> [];
  encrypt_nonempty :
    forall k nonce m c, Encrypt k nonce m = Ok c -> c <> [];
  decrypt_encrypt :
    forall k nonce m c, Encrypt k nonce m = Ok c -> Decrypt k c = Ok m;
  decrypt_key :
    forall k k' c m m', Decrypt k c = Ok m -> Decrypt k' c = Ok m' -> k' = k;
  derive_inj :
    forall ps pw pw' k, DeriveKey ps pw = Ok k -> DeriveKey ps pw' = Ok k -> pw' = pw
}.

(** *** A symbolic scheme

    Keys and ciphertexts as terms: a key is the pair of its salt and
    its password, its stored parameters are the salt and a digest of
    the key (spelled as the password it was derived from), against
    which [DeriveKey] checks the key it derives; a ciphertext spells out
    the key it was sealed under, and it opens under that key alone. *)

(** [x01 b] for every byte [b] of the word, then [x00]. *)
Fixpoint spell (word rest : bytes) : bytes :=
  match word with
  | [] => x00 :: rest
  | b :: word' => x01 :: b :: spell word' rest
  end.

Fixpoint unspell (text : bytes) : option (bytes * bytes) :=
  match text with
  | x00 :: rest => Some ([], rest)
  | x01 :: b :: text' =>
      match unspell text' with
      | Some (word, rest) => Some (b :: word, rest)
      | None => None
      end
  | _ => None
  end.

Definition ErrMalformedKey := ErrForeign "snacl"%string "malformed data"%string.
Definition ErrDecryptFailed := ErrForeign "snacl"%string "unable to decrypt"%string.

Definition ErrInvalidPassword := ErrForeign "snacl"%string "invalid password"%string.

Definition symUnmarshal (marshalled : bytes) : result (bytes * bytes) :=
  match marshalled with
  | x01 :: text =>
      match unspell text with
      | Some (salt, digest) => Ok (salt, digest)
      | None => Err ErrMalformedKey
      end
  | _ => Err ErrMalformedKey
  end.

Definition symDeriveKey (ps : bytes * bytes) (password : bytes)
  : result (bytes * bytes) :=
  if bytes_eqb password (snd ps) then Ok (fst ps, password)
  else Err ErrInvalidPassword.

Definition symDecrypt (k : bytes * bytes) (c : bytes) : result bytes :=
  match unspell c with
  | Some (salt, c') =>
      match unspell c' with
      | Some (pw, m) =>
          if bytes_eqb salt (fst k) && bytes_eqb pw (snd k) then Ok m
          else Err ErrDecryptFailed
      | None => Err ErrDecryptFailed
      end
  | None => Err ErrDecryptFailed
  end.

Definition Symbolic : Scheme := {|
  SecretKey := bytes * bytes;
  Parameters := bytes * bytes;
  NewSecretKey := fun pw _ _ _ salt => Ok (salt, pw);
  Marshal := fun k => x01 :: spell (fst k) (snd k);
  Unmarshal := symUnmarshal;
  DeriveKey := symDeriveKey;
  Encrypt := fun k _ m => Ok (spell (fst k) (spell (snd k) m));
  Decrypt := symDecrypt
|}.

End snacl.

(** ** The account ledger *)

Module account.

(** [type AccountType uint8] *)
Definition AccountType : Type := byte.

(** The constants share one [const] block with [AccountIDLen], whose
    line is the block's first: [iota] is 1 on the line of
    [OneTimeBalance] and 2 on the next. *)
Definition AccountIDLen : nat := 16.
Definition OneTimeBalance : AccountType := x01.
Definition PeriodicBalance : AccountType := x02.

Section Ledger.
Context {TC : time.Codec}.

Record OffChainBalanceAccount : Type := {
  ID : bytes;
  Type_ : AccountType;
  InitialBalance : Z;
  CurrentBalance : Z;
  LastUpdate : time.Time;
  ExpirationDate : time.Time
}.

(** [OffChainBalanceAccount{}] *)
Definition blank : OffChainBalanceAccount :=
  {| ID := make AccountIDLen; Type_ := x00;
     InitialBalance := 0; CurrentBalance := 0;
     LastUpdate := time.zero; ExpirationDate := time.zero |}.

Definition set_ID (v : bytes) (a : OffChainBalanceAccount) :=
  {| ID := v; Type_ := Type_ a;
     InitialBalance := InitialBalance a; CurrentBalance := CurrentBalance a;
     LastUpdate := LastUpdate a; ExpirationDate := ExpirationDate a |}.
Definition set_Type (v : AccountType) (a : OffChainBalanceAccount) :=
  {| ID := ID a; Type_ := v;
     InitialBalance := InitialBalance a; CurrentBalance := CurrentBalance a;
     LastUpdate := LastUpdate a; ExpirationDate := ExpirationDate a |}.
Definition set_InitialBalance (v : Z) (a : OffChainBalanceAccount) :=
  {| ID := ID a; Type_ := Type_ a;
     InitialBalance := v; CurrentBalance := CurrentBalance a;
     LastUpdate := LastUpdate a; ExpirationDate := ExpirationDate a |}.
Definition set_CurrentBalance (v : Z) (a : OffChainBalanceAccount) :=
  {| ID := ID a; Type_ := Type_ a;
     InitialBalance := InitialBalance a; CurrentBalance := v;
     LastUpdate := LastUpdate a; ExpirationDate := ExpirationDate a |}.
Definition set_LastUpdate (v : time.Time) (a : OffChainBalanceAccount) :=
  {| ID := ID a; Type_ := Type_ a;
     InitialBalance := InitialBalance a; CurrentBalance := CurrentBalance a;
     LastUpdate := v; ExpirationDate := ExpirationDate a |}.
Definition set_ExpirationDate (v : time.Time) (a : OffChainBalanceAccount) :=
  {| ID := ID a; Type_ := Type_ a;
     InitialBalance := InitialBalance a; CurrentBalance := CurrentBalance a;
     LastUpdate := LastUpdate a; ExpirationDate := v |}.

(** [Marshal]: the slice [b] of the source is the buffer from offset
    [b] on. *)
Definition Marshal (a : OffChainBalanceAccount) : result bytes :=
  let marshaled := make (AccountIDLen + 47) in
  let b := 0 in
  let marshaled := through b (b + AccountIDLen) (fun w => copy w (ID a)) marshaled in
  let b := b + AccountIDLen in
  let marshaled := through b (b + 1) (fun _ => [Type_ a]) marshaled in
  let b := b + 1 in
  let marshaled :=
    through b (b + 8) (fun w => binary.PutUint64 w (InitialBalance a)) marshaled in
  let b := b + 8 in
  let marshaled :=
    through b (b + 8) (fun w => binary.PutUint64 w (CurrentBalance a)) marshaled in
  let b := b + 8 in
  match time.MarshalBinary (LastUpdate a) with
  | Err err => Err err
  | Ok lastUpdateMarshaled =>
      let marshaled :=
        through b (b + 15) (fun w => copy w lastUpdateMarshaled) marshaled in
      let b := b + 15 in
      match time.MarshalBinary (ExpirationDate a) with
      | Err err => Err err
      | Ok expirationDateMarshaled =>
          let marshaled :=
            through b (b + 15) (fun w => copy w expirationDateMarshaled) marshaled in
          Ok marshaled
      end
  end.

(** [Unmarshal]: the receiver is written field by field, so a failure
    leaves the fields decoded before it. *)
Definition Unmarshal (marshaled : bytes) : M OffChainBalanceAccount unit :=
  if negb (length marshaled =? AccountIDLen + 47) then throw ErrMalformed
  else
    (modify (fun a => set_ID (copy (ID a) (firstn AccountIDLen marshaled)) a) ;;;
     let marshaled := skipn AccountIDLen marshaled in
     modify (set_Type (nth 0 marshaled x00)) ;;;
     let marshaled := skipn 1 marshaled in
     modify (set_InitialBalance (binary.Uint64 (firstn 8 marshaled))) ;;;
     let marshaled := skipn 8 marshaled in
     modify (set_CurrentBalance (binary.Uint64 (firstn 8 marshaled))) ;;;
     let marshaled := skipn 8 marshaled in
     modify (set_LastUpdate time.zero) ;;;
     t <- try (time.UnmarshalBinary (firstn 15 marshaled)) ;;
     modify (set_LastUpdate t) ;;;
     let marshaled := skipn 15 marshaled in
     modify (set_ExpirationDate time.zero) ;;;
     t <- try (time.UnmarshalBinary (firstn 15 marshaled)) ;;
     modify (set_ExpirationDate t))%go.

(** [type AccountStorage struct { *bolt.DB }] *)
Record AccountStorage : Type := { DB : bolt.DB }.

#[global] Instance Handle_AccountStorage : bolt.Handle AccountStorage :=
  {| bolt.getDB := DB; bolt.setDB := fun d _ => {| DB := d |} |}.

(** [NewAccount]; [now] is what [time.Now()] returns.  The call
    returns unless [rand.Read] terminates the process ([None]). *)
Definition NewAccount (io : bolt.Fault) (now : time.Time)
    (balance : Z) (expirationDate : time.Time)
  : World AccountStorage ->
    option (result OffChainBalanceAccount * World AccountStorage) :=
  fun s =>
    let account :=
      {| ID := make AccountIDLen;
         Type_ := OneTimeBalance;
         InitialBalance := balance;
         CurrentBalance := balance;
         LastUpdate := now;
         ExpirationDate := expirationDate |} in
    match rand.Read AccountIDLen s with
    | None => None
    | Some (fresh, s) =>
        let account := set_ID (copy (ID account) fresh) account in
        Some
          match
            bolt.Update io
              (accountBinary <- try (Marshal account) ;;
               bolt.Put (ID account) accountBinary)%go s
          with
          | (Err err, s) => (Err err, s)
          | (Ok _, s) => (Ok account, s)
          end
    end.

(** [GetAccount]; the closure assigns the captured [accountBinary]. *)
Definition GetAccount (io : bolt.Fault) (id : bytes)
  : M (World AccountStorage) OffChainBalanceAccount :=
  fun s =>
    let '((err, accountBinary), s) :=
      with_captured []
        (bolt.View io
           (v <- bolt.Get id ;;
            assign v ;;;
            if length v =? 0 then throw ErrAccNotFound else ret tt)%go) s in
    match err with
    | Err err => (Err err, s)
    | Ok _ =>
        match Unmarshal accountBinary blank with
        | (Err err, _) => (Err err, s)
        | (Ok _, account) => (Ok account, s)
        end
    end.

(** The [readFn] of [GetAccounts]; it appends to the captured
    [accounts]. *)
Definition readFn (_ : bytes) (v : option bytes)
  : M (World AccountStorage * list OffChainBalanceAccount) unit :=
  match v with
  | None => ret tt
  | Some v =>
      match Unmarshal v blank with
      | (Err err, _) => throw err
      | (Ok _, account) =>
          (accounts <- captured ;; assign (accounts ++ [account]))%go
      end
  end.

Definition GetAccounts (io : bolt.Fault)
  : M (World AccountStorage) (list OffChainBalanceAccount) :=
  fun s =>
    let '((err, accounts), s) :=
      with_captured [] (bolt.View io (bolt.ForEach readFn)) s in
    match err with
    | Err err => (Err err, s)
    | Ok _ => (Ok accounts, s)
    end.

(** The comparison the repository's test makes between an account and
    the one fetched back: fields by [==], times by [Equal]. *)
Definition same_account (a b : OffChainBalanceAccount) : Prop :=
  ID a = ID b /\
  Type_ a = Type_ b /\
  InitialBalance a = InitialBalance b /\
  CurrentBalance a = CurrentBalance b /\
  time.Equal (LastUpdate a) (LastUpdate b) = true /\
  time.Equal (ExpirationDate a) (ExpirationDate b) = true.

(** A time the 15-byte field of the record carries: it marshals to 15
    bytes, and these unmarshal to the same instant. *)
Definition carried (t : time.Time) : Prop :=
  exists bs t',
    time.MarshalBinary t = Ok bs /\ length bs = 15 /\
    time.UnmarshalBinary bs = Ok t' /\ time.Equal t t' = true.

(** The range of the record's Go types: a 16-byte array, two
    [uint64]. *)
Definition well_typed (a : OffChainBalanceAccount) : Prop :=
  length (ID a) = AccountIDLen /\
  (0 <= InitialBalance a < 2 ^ 64)%Z /\
  (0 <= CurrentBalance a < 2 ^ 64)%Z.

(** The records of a bucket as [Unmarshal] reads them into blank
    accounts, in key order; nested buckets hold no record. *)
Definition decoded (items : bolt.Bucket) : list OffChainBalanceAccount :=
  flat_map
    (fun kv =>
       match snd kv with
       | None => []
       | Some v => [snd (Unmarshal v blank)]
       end) items.

(** The receiver of [Unmarshal] once the four fixed-width fields
    [id], [ty], [ib], [cb] of a blob have been read into it. *)
Definition plain_fields (id : bytes) (ty : byte) (ib cb : bytes)
    (a : OffChainBalanceAccount) : OffChainBalanceAccount :=
  set_LastUpdate time.zero
    (set_CurrentBalance (binary.le_uint cb)
       (set_InitialBalance (binary.le_uint ib)
          (set_Type ty (set_ID (copy (ID a) id) a)))).

End Ledger.

End account.

(** ** The root-key store ([macaroons/store.go]) *)

Module store.

Definition RootKeyLen : nat := 32.

(** [[]byte("0")] *)
Definition defaultRootKeyID : bytes := [x30].

(** [[]byte("enckey")] *)
Definition encryptionKeyID : bytes := [x65; x6e; x63; x6b; x65; x79].

Section RootKeys.
Context {SC : snacl.Scheme}.

(** [type RootKeyStorage struct { *bolt.DB; encKey *snacl.SecretKey }];
    a nil [encKey] is the locked state. *)
Record RootKeyStorage : Type := {
  DB : bolt.DB;
  encKey : option snacl.SecretKey
}.

#[global] Instance Handle_RootKeyStorage : bolt.Handle RootKeyStorage :=
  {| bolt.getDB := DB;
     bolt.setDB := fun d r => {| DB := d; encKey := encKey r |} |}.

Definition set_encKey (k : option snacl.SecretKey) (r : RootKeyStorage) :=
  {| DB := DB r; encKey := k |}.

(** [NewRootKeyStorage]: the handle wrapped, no key (the bucket of
    the model always exists, so creating it changes nothing). *)
Definition NewRootKeyStorage (db : bolt.DB) : RootKeyStorage :=
  {| DB := db; encKey := None |}.

(** [snacl.NewSecretKey] with the salt it reads from [rand.Reader]. *)
Definition newSecretKey {V : Type} (password : bytes)
  : M (World RootKeyStorage * V) snacl.SecretKey :=
  (salt <- rand.ReadFull snacl.KeySize ;;
   try (snacl.NewSecretKey password snacl.DefaultN snacl.DefaultR
          snacl.DefaultP salt))%go.

(** [SecretKey.Encrypt] with the nonce it reads from [rand.Reader]. *)
Definition encrypt {V : Type} (k : snacl.SecretKey) (plaintext : bytes)
  : M (World RootKeyStorage * V) bytes :=
  (nonce <- rand.ReadFull snacl.NonceSize ;;
   try (snacl.Encrypt k nonce plaintext))%go.

(** The closure of [CreateUnlock]. *)
Definition CreateUnlock_tx (password : bytes)
  : M (World RootKeyStorage * unit) unit :=
  (dbKey <- bolt.Get encryptionKeyID ;;
   if 0 <? length dbKey then
     ps <- try (snacl.Unmarshal dbKey) ;;
     encKey <- try (snacl.DeriveKey ps password) ;;
     update_receiver (set_encKey (Some encKey))
   else
     encKey <- newSecretKey password ;;
     bolt.Put encryptionKeyID (snacl.Marshal encKey) ;;;
     update_receiver (set_encKey (Some encKey)))%go.

Definition CreateUnlock (io : bolt.Fault) (password : option bytes)
  : M (World RootKeyStorage) unit :=
  fun r =>
    match encKey (self r) with
    | Some _ => (Err ErrAlreadyUnlocked, r)
    | None =>
        match password with
        | None => (Err ErrPasswordRequired, r)
        | Some password =>
            let '((err, _), r) :=
              with_captured tt (bolt.Update io (CreateUnlock_tx password)) r in
            (err, r)
        end
    end.

(** The closure of [ChangePassword]. *)
Definition ChangePassword_tx (oldPassword newPassword : bytes)
  : M (World RootKeyStorage * unit) unit :=
  (encKeyDb <- bolt.Get encryptionKeyID ;;
   rootKeyDb <- bolt.Get defaultRootKeyID ;;
   if (length encKeyDb =? 0) || (length rootKeyDb =? 0) then
     throw ErrEncKeyNotFound
   else
     ps <- try (snacl.Unmarshal encKeyDb) ;;
     encKeyOld <- try (snacl.DeriveKey ps oldPassword) ;;
     encKeyNew <- newSecretKey newPassword ;;
     decryptedKey <- try (snacl.Decrypt encKeyOld rootKeyDb) ;;
     let rootKey := copy (make (length decryptedKey)) decryptedKey in
     encryptedKey <- encrypt encKeyNew rootKey ;;
     bolt.Put defaultRootKeyID encryptedKey ;;;
     bolt.Put encryptionKeyID (snacl.Marshal encKeyNew) ;;;
     update_receiver (set_encKey (Some encKeyNew)))%go.

Definition ChangePassword (io : bolt.Fault) (oldPassword newPassword : option bytes)
  : M (World RootKeyStorage) unit :=
  fun r =>
    match encKey (self r) with
    | None => (Err ErrStoreLocked, r)
    | Some _ =>
        match oldPassword, newPassword with
        | Some oldPassword, Some newPassword =>
            let '((err, _), r) :=
              with_captured tt
                (bolt.Update io (ChangePassword_tx oldPassword newPassword)) r in
            (err, r)
        | _, _ => (Err ErrPasswordRequired, r)
        end
    end.

(** The closure of [Get]; it assigns the captured [rootKey]. *)
Definition Get_tx (k : snacl.SecretKey) (id : bytes)
  : M (World RootKeyStorage * bytes) unit :=
  (dbKey <- bolt.Get id ;;
   if length dbKey =? 0 then throw (ErrRootKeyMissing id)
   else
     decKey <- try (snacl.Decrypt k dbKey) ;;
     assign (copy (make (length decKey)) decKey))%go.

Definition Get (io : bolt.Fault) (id : bytes) : M (World RootKeyStorage) bytes :=
  fun r =>
    match encKey (self r) with
    | None => (Err ErrStoreLocked, r)
    | Some k =>
        let '((err, rootKey), r) :=
          with_captured [] (bolt.View io (Get_tx k id)) r in
        match err with
        | Err err => (Err err, r)
        | Ok _ => (Ok rootKey, r)
        end
    end.

(** The closure of [RootKey]; it assigns the captured [rootKey]. *)
Definition RootKey_tx (k : snacl.SecretKey) (id : bytes)
  : M (World RootKeyStorage * bytes) unit :=
  (dbKey <- bolt.Get id ;;
   if negb (length dbKey =? 0) then
     decKey <- try (snacl.Decrypt k dbKey) ;;
     assign (copy (make (length decKey)) decKey)
   else
     assign (make RootKeyLen) ;;;
     fresh <- rand.ReadFull RootKeyLen ;;
     rootKey <- captured ;;
     assign (copy rootKey fresh) ;;;
     rootKey <- captured ;;
     encKey <- encrypt k rootKey ;;
     bolt.Put id encKey)%go.

(** [RootKey] returns the key and its id. *)
Definition RootKey (io : bolt.Fault) : M (World RootKeyStorage) (bytes * bytes) :=
  fun r =>
    match encKey (self r) with
    | None => (Err ErrStoreLocked, r)
    | Some k =>
        let id := defaultRootKeyID in
        let '((err, rootKey), r) :=
          with_captured [] (bolt.Update io (RootKey_tx k id)) r in
        match err with
        | Err err => (Err err, r)
        | Ok _ => (Ok (rootKey, id), r)
        end
    end.

(** The closure of [GenerateNewRootKey]. *)
Definition GenerateNewRootKey_tx (k : snacl.SecretKey)
  : M (World RootKeyStorage * unit) unit :=
  (rootKey <- rand.ReadFull RootKeyLen ;;
   encryptedKey <- encrypt k (copy (make RootKeyLen) rootKey) ;;
   bolt.Put defaultRootKeyID encryptedKey)%go.

Definition GenerateNewRootKey (io : bolt.Fault) : M (World RootKeyStorage) unit :=
  fun r =>
    match encKey (self r) with
    | None => (Err ErrStoreLocked, r)
    | Some k =>
        let '((err, _), r) :=
          with_captured tt (bolt.Update io (GenerateNewRootKey_tx k)) r in
        (err, r)
    end.

(** How often the ciphertext under the default id was written in a
    stretch of the log. *)
Definition writes_of (id : bytes) (events : list bolt.Event) : nat :=
  length
    (filter
       (fun e =>
          match e with
          | bolt.EvPut key _ => bytes_eqb key id
          | _ => false
          end) events).

(** The store holds the root key [K] under the default id: the
    ciphertext stored there opens to [K] under the key in memory. *)
Definition holds_root_key (r : World RootKeyStorage) (K : bytes) : Prop :=
  exists k,
    encKey (self r) = Some k /\
    bolt.value defaultRootKeyID (bolt.bucket (DB (self r))) <> [] /\
    snacl.Decrypt k
      (bolt.value defaultRootKeyID (bolt.bucket (DB (self r)))) = Ok K.

(** A fresh instance over the storage of [r]: [NewRootKeyStorage] on
    the same handle. *)
Definition reopen (r : World RootKeyStorage) : World RootKeyStorage :=
  {| self := NewRootKeyStorage (DB (self r)); Reader := Reader r |}.

End RootKeys.

End store.

(** ** Values the statements are evaluated on *)

Module fixture.

(** [time.Date(2018, time.July, 2, 15, 44, 0, 0, time.UTC)], the
    [testExpDate] of the repository's test. *)
Definition testExpDate : @time.Time time.Go :=
  time.wallclock 63666143040 0 None.

(** A creation time as [time.Now()] reads it, in a zone two hours east
    of UTC. *)
Definition created : @time.Time time.Go :=
  time.reading 63666000000 5 1234567 (Some 7200%Z).

Definition id16 : bytes :=
  [x00; x01; x02; x03; x04; x05; x06; x07;
   x08; x09; x0a; x0b; x0c; x0d; x0e; x0f].

Definition account9735 : @account.OffChainBalanceAccount time.Go :=
  {| account.ID := id16;
     account.Type_ := account.OneTimeBalance;
     account.InitialBalance := 9735;
     account.CurrentBalance := 9735;
     account.LastUpdate := created;
     account.ExpirationDate := testExpDate |}.

(** A 63-byte blob whose two time stamps do not start with the
    version byte. *)
Definition zeros63 : bytes := repeat x00 63.

(** The 46 bytes after the type byte, with two well-formed time
    stamps (version byte, zero instant, UTC). *)
Definition tail46 : bytes :=
  repeat x00 16 ++ (x01 :: repeat x00 12 ++ [xff; xff])
                ++ (x01 :: repeat x00 12 ++ [xff; xff]).

Definition blob_of_type (ty : byte) : bytes := id16 ++ ty :: tail46.

Definition empty_db : bolt.DB := {| bolt.bucket := []; bolt.log := [] |}.

(** An account store holding [blob] under [id16]. *)
Definition ledger_with (blob : bytes) : World account.AccountStorage :=
  {| self := {| account.DB :=
                  {| bolt.bucket := [(id16, Some blob)]; bolt.log := [] |} |};
     Reader := [] |}.

(** An account store holding the well-formed [blob_of_type x01] under
    one key and, when [bad] is set, 63 zero bytes under a later key. *)
Definition ledger_of_two (bad : bool) : World account.AccountStorage :=
  {| self := {| account.DB :=
                  {| bolt.bucket :=
                       (id16, Some (blob_of_type x01)) ::
                       (if bad then [([xff], Some zeros63)] else []);
                     bolt.log := [] |} |};
     Reader := [] |}.

(** An empty account store, with 16 bytes of entropy to draw. *)
Definition fresh_ledger : World account.AccountStorage :=
  {| self := {| account.DB := empty_db |}; Reader := id16 |}.

(** The passwords of the specification's scenario. *)
Definition hunter2 : bytes := [x68; x75; x6e; x74; x65; x72; x32].
Definition newpw : bytes := [x6e; x65; x77; x70; x77].

(** A root-key store that was never unlocked, over an empty bucket,
    with 200 bytes of entropy to draw. *)
Definition locked_store : World (@store.RootKeyStorage snacl.Symbolic) :=
  {| self := store.NewRootKeyStorage empty_db; Reader := repeat x2a 200 |}.

(** The store after [CreateUnlock] with ["hunter2"]. *)
Definition opened_store : World (@store.RootKeyStorage snacl.Symbolic) :=
  snd (store.CreateUnlock bolt.healthy (Some hunter2) locked_store).

(** The store after a first [RootKey], and the root key it made. *)
Definition unlocked_store : World (@store.RootKeyStorage snacl.Symbolic) :=
  snd (store.RootKey bolt.healthy opened_store).

Definition K1 : bytes := repeat x2a 32.

(** The store after the password was changed to ["newpw"]. *)
Definition rekeyed_store : World (@store.RootKeyStorage snacl.Symbolic) :=
  snd (store.ChangePassword bolt.healthy (Some hunter2) (Some newpw)
         unlocked_store).

(** A transaction that runs and then fails to commit. *)
Definition failing_commit : bolt.Fault :=
  {| bolt.begin_err := None;
     bolt.end_err := Some (ErrForeign "bolt" "write error") |}.

End fixture.

(** ** Buckets in key order *)

(** The keys of a bbolt bucket are distinct and in byte order; [ordered]
    says so of a listing of its pairs. *)
Fixpoint ordered (b : bolt.Bucket) : Prop :=
  match b with
  | [] => True
  | (k, _) :: b' =>
      Forall (fun kv => bolt.compare k (fst kv) = Lt) b' /\ ordered b'
  end.

(** ** Further values the statements are evaluated on *)

Module sample.

(** A time in a zone thirty seconds east of UTC: package time marshals
    it in binary version 2, which is 16 bytes long. *)
Definition odd_zone : @time.Time time.Go :=
  time.wallclock 63666143040 0 (Some 30%Z).

(** A time in a zone one minute west of UTC, which package time
    refuses to marshal (the offset of -1 minute stands for UTC). *)
Definition minus_one_minute : @time.Time time.Go :=
  time.wallclock 63666143040 0 (Some (-60)%Z).

(** An account whose expiration date is in that zone. *)
Definition odd_account : @account.OffChainBalanceAccount time.Go :=
  {| account.ID := fixture.id16;
     account.Type_ := account.OneTimeBalance;
     account.InitialBalance := 9735;
     account.CurrentBalance := 9735;
     account.LastUpdate := fixture.created;
     account.ExpirationDate := odd_zone |}.

(** An account store that already holds a record under the 16 bytes
    [rand.Reader] will deliver next, and one under another key. *)
Definition crowded_ledger : World account.AccountStorage :=
  {| self := {| account.DB :=
                  {| bolt.bucket :=
                       [(fixture.id16, Some (fixture.blob_of_type x02));
                        ([xff], Some (fixture.blob_of_type x01))];
                     bolt.log := [] |} |};
     Reader := fixture.id16 |}.

(** The opened store with one byte of entropy left. *)
Definition drained_store : World (@store.RootKeyStorage snacl.Symbolic) :=
  {| self := self fixture.opened_store; Reader := [x2a] |}.

(** The store after [GenerateNewRootKey] on the unlocked store. *)
Definition rotated_store : World (@store.RootKeyStorage snacl.Symbolic) :=
  snd (store.GenerateNewRootKey bolt.healthy fixture.unlocked_store).

End sample.

(* ================================================================== *)
(** * Part II: properties                                              *)
(* ================================================================== *)

(** ** Tactics *)

(** Project through the handles and the captured variables of a
    transaction's state. *)
Ltac tx_simpl :=
  cbn [bolt.getDB bolt.setDB bolt.Handle_DB bolt.Handle_captured
       Handle_World account.Handle_AccountStorage
       store.Handle_RootKeyStorage
       rand.pool rand.setPool Source_World rand.Source_captured
       fst snd self Reader
       bolt.note bolt.bucket bolt.log bolt.rollback
       bolt.begin_err bolt.end_err bolt.healthy
       account.DB store.DB store.encKey store.set_encKey] in *.

(** Unfold the transaction primitives in the code of an operation. *)
Ltac tx_unfold :=
  unfold with_captured, bolt.Update, bolt.View, bolt.Get, bolt.Put,
    store.newSecretKey, store.encrypt, rand.ReadFull,
    assign, captured, update_receiver in *;
  unfold bind, try, ret, throw, gets, modify in *.

(** One step of a run recorded in a hypothesis: split on the next test
    or result the code branches on, and drop the branch the recorded
    outcome excludes. *)
Ltac branch :=
  match goal with
  | H : context [match ?x with _ => _ end] |- _ =>
      lazymatch x with
      | context [match _ with _ => _ end] => fail
      | _ => destruct x eqn:?; tx_simpl; try discriminate H
      end
  | H : context [if ?x then _ else _] |- _ =>
      lazymatch x with
      | context [match _ with _ => _ end] => fail
      | _ => destruct x eqn:?; tx_simpl; try discriminate H
      end
  end.

(** ** Results *)

Lemma Ok_inj (A : Type) (a b : A) : Ok a = Ok b -> a = b.
Proof. intros E; injection E; auto. Qed.

Lemma Err_inj (A : Type) (e e' : error) : @Err A e = Err e' -> e = e'.
Proof. intros E; injection E; auto. Qed.

Lemma pair_inj (A B : Type) (a a' : A) (b b' : B) :
  (a, b) = (a', b') -> a = a' /\ b = b'.
Proof. intros E; injection E; auto. Qed.

(** Read the recorded outcome [H : (result, state) = (result', state')]
    of a run, without computing in either side. *)
Ltac outcome H :=
  let E := fresh "E" in
  apply pair_inj in H; destruct H as [E H];
  try apply Ok_inj in E; try apply Err_inj in E;
  try (apply pair_inj in E; destruct E as [? ?]);
  subst; tx_simpl.

(** ** Slices and copies *)

Lemma copy_length (dst src : bytes) : length (copy dst src) = length dst.
Proof.
  revert src; induction dst as [|d dst IH]; intros [|s src]; simpl; auto.
Qed.

Lemma copy_full (dst src : bytes) :
  length dst = length src -> copy dst src = src.
Proof.
  revert src; induction dst as [|d dst IH]; intros [|s src]; simpl;
    intros Hlen; try discriminate; auto.
  f_equal; apply IH; lia.
Qed.

Lemma firstn_exact (A : Type) (n : nat) (l1 l2 : list A) :
  length l1 = n -> firstn n (l1 ++ l2) = l1.
Proof.
  intros <-; rewrite firstn_app, firstn_all, Nat.sub_diag; simpl.
  apply app_nil_r.
Qed.

Lemma skipn_exact (A : Type) (n : nat) (l1 l2 : list A) :
  length l1 = n -> skipn n (l1 ++ l2) = l2.
Proof.
  intros <-; rewrite skipn_app, skipn_all, Nat.sub_diag; reflexivity.
Qed.

Lemma be_bytes_length (n : nat) (v : Z) : length (binary.be_bytes n v) = n.
Proof.
  unfold binary.be_bytes; rewrite length_rev.
  revert v; induction n; simpl; auto.
Qed.

Lemma make_length (n : nat) : length (make n) = n.
Proof. apply repeat_length. Qed.

Lemma copy_make (src : bytes) : copy (make (length src)) src = src.
Proof. apply copy_full, make_length. Qed.

(** ** Bytes and integers *)

Lemma Z_of_byte_range (b : byte) : (0 <= Z_of_byte b < 256)%Z.
Proof.
  unfold Z_of_byte; pose proof (Byte.to_N_bounded b); lia.
Qed.

Lemma land_255 (v : Z) : Z.land v 255 = (v mod 256)%Z.
Proof. exact (Z.land_ones v 8 ltac:(lia)). Qed.

Lemma Z_of_byte_of_Z (v : Z) : Z_of_byte (byte_of_Z v) = (v mod 256)%Z.
Proof.
  unfold Z_of_byte, byte_of_Z; rewrite land_255.
  pose proof (Z.mod_pos_bound v 256 ltac:(lia)) as Hr.
  destruct (Byte.of_N (Z.to_N (v mod 256))) as [b|] eqn:E.
  - apply Byte.to_of_N in E; rewrite E; lia.
  - apply Byte.of_N_None_iff in E; lia.
Qed.

Lemma byte_of_Z_of_byte (b : byte) : byte_of_Z (Z_of_byte b) = b.
Proof.
  unfold byte_of_Z; rewrite land_255, Z.mod_small by apply Z_of_byte_range.
  unfold Z_of_byte; rewrite N2Z.id, Byte.of_to_N; reflexivity.
Qed.

Lemma le_bytes_length (n : nat) (v : Z) : length (binary.le_bytes n v) = n.
Proof. revert v; induction n; simpl; auto. Qed.

Lemma le_uint_le_bytes (n : nat) (v : Z) :
  binary.le_uint (binary.le_bytes n v) = Z.land v (Z.ones (8 * Z.of_nat n)).
Proof.
  revert v; induction n as [|n IH]; intros v.
  - simpl; rewrite Z.land_0_r; reflexivity.
  - cbn [binary.le_bytes binary.le_uint].
    rewrite IH, Z_of_byte_of_Z, <- land_255.
    apply Z.bits_inj'; intros i Hi.
    rewrite Z.lor_spec, !Z.land_spec, Z.shiftl_spec by lia.
    change 255%Z with (Z.ones 8).
    rewrite !Z.testbit_ones_nonneg by lia.
    destruct (Z.ltb_spec i 8) as [Hlt|Hge].
    + rewrite (Z.testbit_neg_r _ (i - 8)) by lia.
      replace (i <? 8 * Z.of_nat (S n))%Z with true
        by (symmetry; apply Z.ltb_lt; lia).
      rewrite orb_false_r; reflexivity.
    + rewrite Z.land_spec, Z.shiftr_spec, Z.testbit_ones_nonneg by lia.
      replace (i - 8 + 8)%Z with i by lia.
      replace (i - 8 <? 8 * Z.of_nat n)%Z with (i <? 8 * Z.of_nat (S n))%Z
        by (destruct (Z.ltb_spec i (8 * Z.of_nat (S n)));
            symmetry; [apply Z.ltb_lt | apply Z.ltb_ge]; lia).
      rewrite andb_false_r; reflexivity.
Qed.

Lemma Uint64_PutUint64 (v : Z) :
  (0 <= v < 2 ^ 64)%Z ->
  binary.le_uint (binary.le_bytes 8 v) = v.
Proof.
  intros Hv; rewrite le_uint_le_bytes.
  change (8 * Z.of_nat 8)%Z with 64%Z.
  rewrite Z.land_ones by lia; apply Z.mod_small; exact Hv.
Qed.

Lemma be_uint_be_bytes (n : nat) (v : Z) :
  binary.be_uint (binary.be_bytes n v) = (v mod 2 ^ (8 * Z.of_nat n))%Z.
Proof.
  unfold binary.be_uint, binary.be_bytes.
  rewrite rev_involutive, le_uint_le_bytes, Z.land_ones by lia; reflexivity.
Qed.

Lemma to_signed_mod (w v : Z) :
  (0 < w)%Z -> to_signed w (v mod 2 ^ w) = to_signed w v.
Proof.
  intros Hw; unfold to_signed.
  rewrite Zplus_mod_idemp_l; reflexivity.
Qed.

Lemma to_signed_idem (w v : Z) :
  (0 < w)%Z -> to_signed w (to_signed w v) = to_signed w v.
Proof.
  intros Hw; unfold to_signed.
  replace ((v + 2 ^ (w - 1)) mod 2 ^ w - 2 ^ (w - 1) + 2 ^ (w - 1))%Z
    with ((v + 2 ^ (w - 1)) mod 2 ^ w)%Z by lia.
  rewrite Zmod_mod; reflexivity.
Qed.

(** ** Package time's codec *)

Lemma to_signed_range (w v : Z) :
  (0 < w)%Z -> (- 2 ^ (w - 1) <= to_signed w v < 2 ^ (w - 1))%Z.
Proof.
  intros Hw; unfold to_signed.
  assert (H2 : (2 ^ w = 2 * 2 ^ (w - 1))%Z).
  { replace w with (Z.succ (w - 1)) at 1 by lia.
    rewrite Z.pow_succ_r by lia; reflexivity. }
  pose proof (Z.mod_pos_bound (v + 2 ^ (w - 1)) (2 ^ w)
                ltac:(apply Z.pow_pos_nonneg; lia)).
  lia.
Qed.

Lemma to_signed_small (w v : Z) :
  (0 < w)%Z -> (- 2 ^ (w - 1) <= v < 2 ^ (w - 1))%Z -> to_signed w v = v.
Proof.
  intros Hw Hv; unfold to_signed.
  assert (H2 : (2 ^ w = 2 * 2 ^ (w - 1))%Z).
  { replace w with (Z.succ (w - 1)) at 1 by lia.
    rewrite Z.pow_succ_r by lia; reflexivity. }
  rewrite Z.mod_small by lia; lia.
Qed.

Lemma land_nsecMask (v : Z) : Z.land v time.nsecMask = (v mod 2 ^ 30)%Z.
Proof.
  change time.nsecMask with (Z.ones 30); apply Z.land_ones; lia.
Qed.

(** A word below [2 ^ 63] has no monotonic bit. *)
Lemma land_hasMonotonic (v : Z) :
  (0 <= v < 2 ^ 63)%Z -> Z.land v time.hasMonotonic = 0%Z.
Proof.
  intros Hv.
  rewrite <- (Z.mod_small v (2 ^ 63)) by exact Hv.
  rewrite <- Z.land_ones by lia.
  rewrite <- Z.land_assoc.
  change (Z.land (Z.ones 63) time.hasMonotonic) with 0%Z.
  apply Z.land_0_r.
Qed.

Lemma nsec_range (t : time.GoTime) : (0 <= time.nsec t < 2 ^ 30)%Z.
Proof.
  unfold time.nsec; rewrite land_nsecMask.
  pose proof (Z.mod_pos_bound (time.wall t) (2 ^ 30) ltac:(lia)) as H.
  rewrite to_signed_small by lia; exact H.
Qed.

Lemma sec_range (t : time.GoTime) :
  time.valid t -> (- 2 ^ 63 <= time.sec t < 2 ^ 63)%Z.
Proof.
  intros [_ Hext]; unfold time.sec.
  destruct (negb (Z.land (time.wall t) time.hasMonotonic =? 0)%Z).
  - apply (@to_signed_range 64); lia.
  - exact Hext.
Qed.

(** What [UnmarshalBinary] makes of the 15 bytes of binary version 1. *)
Lemma GoUnmarshalBinary_V1 (s n m : Z) :
  (- 2 ^ 63 <= s < 2 ^ 63)%Z -> (0 <= n < 2 ^ 30)%Z ->
  (- 2 ^ 15 <= m < 2 ^ 15)%Z ->
  time.GoUnmarshalBinary
    ([time.timeBinaryVersionV1] ++ binary.be_bytes 8 s ++
     binary.be_bytes 4 n ++ binary.be_bytes 2 m ++ []) =
    Ok {| time.wall := n; time.ext := s;
          time.loc := if (m * 60 =? -1 * 60)%Z then None else Some (m * 60)%Z |}.
Proof.
  intros Hs Hn Hm; unfold time.GoUnmarshalBinary.
  cbn [app Byte.eqb negb andb time.timeBinaryVersionV1 time.timeBinaryVersionV2].
  change (Byte.eqb x01 x01) with true; change (Byte.eqb x01 x02) with false.
  cbn [negb andb]; cbv iota zeta.
  replace (length (x01 :: binary.be_bytes 8 s ++ binary.be_bytes 4 n ++
                   binary.be_bytes 2 m ++ [])) with 15
    by (rewrite length_cons, !length_app, !be_bytes_length; reflexivity).
  cbn [Nat.eqb Nat.add negb]; cbv iota.
  rewrite skipn_cons, skipn_O.
  rewrite firstn_exact by apply be_bytes_length.
  rewrite skipn_exact by apply be_bytes_length.
  rewrite firstn_exact by apply be_bytes_length.
  rewrite skipn_exact by apply be_bytes_length.
  rewrite app_nil_r, firstn_all2 by (rewrite be_bytes_length; lia).
  rewrite !be_uint_be_bytes.
  change (8 * Z.of_nat 8)%Z with 64%Z; change (8 * Z.of_nat 4)%Z with 32%Z;
    change (8 * Z.of_nat 2)%Z with 16%Z.
  rewrite !to_signed_mod by lia.
  rewrite (@to_signed_small 64), (@to_signed_small 32), (@to_signed_small 16)
    by (change (2 ^ (64 - 1))%Z with (2 ^ 63)%Z;
        change (2 ^ (32 - 1))%Z with (2 ^ 31)%Z;
        change (2 ^ (16 - 1))%Z with (2 ^ 15)%Z; lia).
  unfold time.setLoc, time.stripMono, time.uint64; cbn [time.wall time.ext time.loc].
  rewrite (Z.mod_small n) by lia.
  rewrite land_hasMonotonic by lia.
  reflexivity.
Qed.

(** Package time carries every time whose zone is UTC or a whole number
    of minutes from it in 15 bytes, and reads the instant back. *)
Lemma Go_whole_minutes_carried (t : time.GoTime) :
  time.valid t -> time.whole_minutes t ->
  exists bs t',
    time.GoMarshalBinary t = Ok bs /\ length bs = 15 /\
    time.GoUnmarshalBinary bs = Ok t' /\ time.GoEqual t t' = true.
Proof.
  intros Hv Hz.
  pose proof (sec_range Hv) as Hs.
  pose proof (nsec_range t) as Hn.
  assert (Heq : forall l,
            time.GoEqual t {| time.wall := time.nsec t; time.ext := time.sec t;
                              time.loc := l |} = true).
  { intros l; unfold time.GoEqual; cbn [time.wall time.ext].
    rewrite <- Z.land_assoc, (land_hasMonotonic (v := time.nsec t)) by lia.
    rewrite Z.land_0_r; cbn [Z.eqb negb].
    apply andb_true_intro; split; apply Z.eqb_eq.
    - unfold time.sec at 2; cbn [time.wall time.ext].
      rewrite land_hasMonotonic by lia; reflexivity.
    - unfold time.nsec at 2; cbn [time.wall].
      rewrite land_nsecMask, Z.mod_small by lia.
      apply eq_sym, to_signed_small; lia. }
  unfold time.whole_minutes in Hz; unfold time.GoMarshalBinary.
  destruct (time.loc t) as [offset|].
  - destruct Hz as (Hrem & Hq & Hq1).
    rewrite Hrem; cbn [Z.eqb negb]; cbv zeta.
    replace ((Z.quot offset 60 <? -32768) || (Z.quot offset 60 =? -1) ||
             (Z.quot offset 60 >? 32767))%Z with false.
    2:{ symmetry; rewrite !orb_false_iff; repeat split.
        - apply Z.ltb_ge; lia.
        - apply Z.eqb_neq; exact Hq1.
        - rewrite Z.gtb_ltb; apply Z.ltb_ge; lia. }
    change (Byte.eqb time.timeBinaryVersionV1 time.timeBinaryVersionV2) with false.
    cbv iota.
    rewrite (@to_signed_small 16)
      by (change (2 ^ (16 - 1))%Z with (2 ^ 15)%Z; lia).
    do 2 eexists; split; [reflexivity|]; split.
    + rewrite !length_app, !be_bytes_length; reflexivity.
    + split; [apply GoUnmarshalBinary_V1; lia|apply Heq].
  - change (Byte.eqb time.timeBinaryVersionV1 time.timeBinaryVersionV2) with false.
    cbv iota zeta.
    do 2 eexists; split; [reflexivity|]; split.
    + rewrite !length_app, !be_bytes_length; reflexivity.
    + split; [apply GoUnmarshalBinary_V1; lia|apply Heq].
Qed.

(** ** The 63-byte record *)

Lemma through_window (lo hi : nat) (f : bytes -> bytes) (pre mid post : bytes) :
  length pre = lo -> lo + length mid = hi ->
  through lo hi f (pre ++ mid ++ post) = pre ++ f mid ++ post.
Proof.
  intros Hpre Hmid; unfold through.
  rewrite firstn_exact, skipn_exact by exact Hpre.
  rewrite firstn_exact by lia.
  rewrite (app_assoc pre mid post).
  rewrite skipn_exact by (rewrite length_app; lia).
  reflexivity.
Qed.

Lemma make_add (n m : nat) : make (n + m) = make n ++ make m.
Proof. apply repeat_app. Qed.

Lemma firstn_whole (A : Type) (n : nat) (l : list A) :
  length l = n -> firstn n l = l.
Proof. intros <-; apply firstn_all. Qed.

(** Every 63-byte blob is the six fields side by side. *)
Lemma blob_fields (blob : bytes) :
  length blob = 63 ->
  exists id ty ib cb lu ed,
    blob = id ++ [ty] ++ ib ++ cb ++ lu ++ ed /\
    length id = 16 /\ length ib = 8 /\ length cb = 8 /\
    length lu = 15 /\ length ed = 15 /\
    lu = firstn 15 (skipn 33 blob) /\ ed = firstn 15 (skipn 48 blob) /\
    nth 16 blob x00 = ty.
Proof.
  intros Hlen.
  exists (firstn 16 blob), (nth 16 blob x00), (firstn 8 (skipn 17 blob)),
    (firstn 8 (skipn 25 blob)), (firstn 15 (skipn 33 blob)),
    (firstn 15 (skipn 48 blob)).
  do 63 (destruct blob as [|? blob]; [discriminate Hlen|]).
  destruct blob; [|discriminate Hlen].
  cbn [firstn skipn app nth length].
  repeat split; reflexivity.
Qed.

Section LedgerProperties.
Context {TC : time.Codec}.

Import account.

Local Open Scope go_scope.

(** What [Marshal] writes, field by field. *)
Lemma Marshal_layout (a : OffChainBalanceAccount) (lu ed : bytes) :
  time.MarshalBinary (LastUpdate a) = Ok lu ->
  time.MarshalBinary (ExpirationDate a) = Ok ed ->
  Marshal a =
    Ok (copy (make 16) (ID a) ++ [Type_ a] ++
        binary.le_bytes 8 (InitialBalance a) ++
        binary.le_bytes 8 (CurrentBalance a) ++
        copy (make 15) lu ++ copy (make 15) ed).
Proof.
  intros Hlu Hed; unfold Marshal; rewrite Hlu, Hed; cbv zeta.
  f_equal.
  change (AccountIDLen + 47) with (16 + (1 + (8 + (8 + (15 + 15))))).
  rewrite !make_add.
  set (z16 := make 16); set (z1 := make 1); set (z8 := make 8);
    set (z15 := make 15).
  change (0 + AccountIDLen + 1 + 8 + 8 + 15 + 15) with 63.
  change (0 + AccountIDLen + 1 + 8 + 8 + 15) with 48.
  change (0 + AccountIDLen + 1 + 8 + 8) with 33.
  change (0 + AccountIDLen + 1 + 8) with 25.
  change (0 + AccountIDLen + 1) with 17.
  change (0 + AccountIDLen) with 16.
  unfold binary.PutUint64.
  set (i := copy z16 (ID a)).
  set (ib := binary.le_bytes 8 (InitialBalance a)).
  set (cb := binary.le_bytes 8 (CurrentBalance a)).
  assert (H16 : length i = 16)
    by (subst i; rewrite copy_length; apply make_length).
  assert (H17 : length (i ++ [Type_ a]) = 17)
    by (rewrite length_app, H16; reflexivity).
  assert (H25 : length ((i ++ [Type_ a]) ++ ib) = 25)
    by (rewrite length_app, H17; reflexivity).
  assert (H33 : length (((i ++ [Type_ a]) ++ ib) ++ cb) = 33)
    by (rewrite length_app, H25; reflexivity).
  assert (H48 : length ((((i ++ [Type_ a]) ++ ib) ++ cb) ++ copy z15 lu) = 48)
    by (rewrite length_app, H33, copy_length; reflexivity).
  rewrite (@through_window 0 16 (fun w => copy w (ID a)) [] z16
             (z1 ++ z8 ++ z8 ++ z15 ++ z15) eq_refl eq_refl : 
           through 0 16 _ (z16 ++ z1 ++ z8 ++ z8 ++ z15 ++ z15) = i ++ _).
  rewrite (@through_window 16 17 (fun _ => [Type_ a]) i z1 _ H16 eq_refl).
  cbv beta.
  rewrite (app_assoc i [Type_ a]).
  rewrite (@through_window 17 25 (fun w => copy w ib) _ z8 _ H17 eq_refl).
  cbv beta; rewrite (copy_full z8 ib eq_refl).
  rewrite (app_assoc (i ++ [Type_ a]) ib).
  rewrite (@through_window 25 33 (fun w => copy w cb) _ z8 _ H25 eq_refl).
  cbv beta; rewrite (copy_full z8 cb eq_refl).
  rewrite (app_assoc ((i ++ [Type_ a]) ++ ib) cb).
  rewrite (@through_window 33 48 (fun w => copy w lu) _ z15 z15 H33 eq_refl).
  cbv beta.
  rewrite (app_assoc (((i ++ [Type_ a]) ++ ib) ++ cb) (copy z15 lu)).
  rewrite (@through_window 48 63 (fun w => copy w ed) _ z15 [] H48 eq_refl :
           through 48 63 _ (_ ++ z15) = _ ++ copy z15 ed ++ []).
  rewrite app_nil_r, <- !app_assoc; reflexivity.
Qed.

(** What [Unmarshal] reads, field by field. *)
Lemma Unmarshal_layout (id : bytes) (ty : byte) (ib cb lu ed : bytes)
    (a : OffChainBalanceAccount) :
  length id = 16 -> length ib = 8 -> length cb = 8 ->
  length lu = 15 -> length ed = 15 ->
  Unmarshal (id ++ [ty] ++ ib ++ cb ++ lu ++ ed) a =
    match time.UnmarshalBinary lu with
    | Err e => (Err e, plain_fields id ty ib cb a)
    | Ok t =>
        match time.UnmarshalBinary ed with
        | Err e =>
            (Err e,
             set_ExpirationDate time.zero
               (set_LastUpdate t (plain_fields id ty ib cb a)))
        | Ok t' =>
            (Ok tt,
             set_ExpirationDate t'
               (set_LastUpdate t (plain_fields id ty ib cb a)))
        end
    end.
Proof.
  intros Hid Hib Hcb Hlu Hed; unfold Unmarshal.
  replace (length (id ++ [ty] ++ ib ++ cb ++ lu ++ ed)) with 63
    by (rewrite !length_app, Hid, Hib, Hcb, Hlu, Hed; reflexivity).
  change (negb (63 =? AccountIDLen + 47)) with false; cbv iota zeta.
  change AccountIDLen with 16.
  rewrite (firstn_exact id _ Hid), (skipn_exact id _ Hid).
  cbn [app nth].
  rewrite !skipn_cons, !skipn_O.
  rewrite (skipn_exact ib _ Hib), (skipn_exact cb _ Hcb).
  rewrite (skipn_exact lu _ Hlu).
  rewrite (firstn_exact ib _ Hib), (firstn_exact cb _ Hcb).
  rewrite (firstn_exact lu _ Hlu), (firstn_whole ed Hed).
  unfold binary.Uint64.
  rewrite (firstn_whole ib Hib), (firstn_whole cb Hcb).
  unfold bind, modify, try, plain_fields.
  destruct (time.UnmarshalBinary lu) as [t|e]; [|reflexivity].
  destruct (time.UnmarshalBinary ed) as [t'|e]; reflexivity.
Qed.

Lemma Marshal_length (a : OffChainBalanceAccount) (marshaled : bytes) :
  Marshal a = Ok marshaled -> length marshaled = 63.
Proof.
  intros HM.
  destruct (time.MarshalBinary (LastUpdate a)) as [lu|e] eqn:Hlu.
  2:{ unfold Marshal in HM; rewrite Hlu in HM; discriminate HM. }
  destruct (time.MarshalBinary (ExpirationDate a)) as [ed|e] eqn:Hed.
  2:{ unfold Marshal in HM; rewrite Hlu, Hed in HM; discriminate HM. }
  rewrite (Marshal_layout a Hlu Hed) in HM.
  apply Ok_inj in HM; subst marshaled.
  rewrite !length_app, !copy_length, !make_length, !le_bytes_length.
  reflexivity.
Qed.

(** [Unmarshal] never succeeds on a blob that is not 63 bytes long. *)
Lemma Unmarshal_wrong_length (blob : bytes) (a : OffChainBalanceAccount) :
  length blob <> 63 -> Unmarshal blob a = (Err ErrMalformed, a).
Proof.
  intros Hlen; unfold Unmarshal.
  change (AccountIDLen + 47) with 63.
  destruct (Nat.eqb_spec (length blob) 63) as [E|_]; [contradiction|].
  reflexivity.
Qed.

End LedgerProperties.

Section RecordClaims.
Context {TC : time.Codec}.

Import account.

(** The result of [GetAccount], read off its code: the transaction may
    fail to begin, an empty value is reported as a missing account, the
    transaction may fail to end, and then the blob is unmarshaled. *)
Lemma GetAccount_result (io : bolt.Fault) (id : bytes)
    (s : World AccountStorage) :
  fst (GetAccount io id s) =
    match bolt.begin_err io with
    | Some e => Err e
    | None =>
        let blob := bolt.value id (bolt.bucket (DB (self s))) in
        if length blob =? 0 then Err ErrAccNotFound
        else
          match bolt.end_err io with
          | Some e => Err e
          | None =>
              match Unmarshal blob blank with
              | (Err e, _) => Err e
              | (Ok _, a) => Ok a
              end
          end
    end.
Proof.
  unfold GetAccount, with_captured, bolt.View, bind, bolt.Get, assign,
    modify, throw, ret.
  destruct (bolt.begin_err io) as [e|]; [reflexivity|].
  tx_simpl.
  destruct (length (bolt.value id (bolt.bucket (DB (self s)))) =? 0);
    [reflexivity|].
  destruct (bolt.end_err io) as [e|]; [reflexivity|].
  tx_simpl.
  destruct (Unmarshal _ blank) as [[u|e] a]; reflexivity.
Qed.

(** What [Unmarshal] rejects: it answers a blob that is not 63
    bytes long with [ErrMalformed] and leaves its receiver alone; on a
    63-byte blob whose [LastUpdate] or [ExpirationDate] sub-field does
    not decode it returns the time decoder's own error; and
    [GetAccount] never returns an account for a stored blob that
    [Unmarshal] rejects: with a healthy transaction it returns that
    same error, except that an empty blob is reported as
    [ErrAccNotFound]. *)
Lemma Unmarshal_rejects_undecodable_blob
    (blob : bytes) (a0 : OffChainBalanceAccount) :
  (length blob <> 63 -> Unmarshal blob a0 = (Err ErrMalformed, a0)) /\
  (length blob = 63 ->
   forall e, time.UnmarshalBinary (firstn 15 (skipn 33 blob)) = Err e ->
     fst (Unmarshal blob a0) = Err e) /\
  (length blob = 63 ->
   forall t e,
     time.UnmarshalBinary (firstn 15 (skipn 33 blob)) = Ok t ->
     time.UnmarshalBinary (firstn 15 (skipn 48 blob)) = Err e ->
     fst (Unmarshal blob a0) = Err e) /\
  (forall io id s e,
     bolt.value id (bolt.bucket (DB (self s))) = blob ->
     fst (Unmarshal blob blank) = Err e ->
     (exists e', fst (GetAccount io id s) = Err e') /\
     fst (GetAccount bolt.healthy id s) =
       Err (if length blob =? 0 then ErrAccNotFound else e)).
Proof.
  split; [apply Unmarshal_wrong_length|].
  split; [|split].
  - intros Hlen e He.
    destruct (blob_fields blob Hlen)
      as (id & ty & ib & cb & lu & ed & -> & Hid & Hib & Hcb & Hlu & Hed & Elu & _).
    rewrite (@Unmarshal_layout TC id ty ib cb lu ed a0 Hid Hib Hcb Hlu Hed).
    rewrite <- Elu in He; rewrite He; reflexivity.
  - intros Hlen t e Ht He.
    destruct (blob_fields blob Hlen)
      as (id & ty & ib & cb & lu & ed & -> & Hid & Hib & Hcb & Hlu & Hed & Elu & Eed & _).
    rewrite (@Unmarshal_layout TC id ty ib cb lu ed a0 Hid Hib Hcb Hlu Hed).
    rewrite <- Elu in Ht; rewrite <- Eed in He; rewrite Ht, He; reflexivity.
  - intros io id s e Hblob He; split.
    + rewrite GetAccount_result, Hblob.
      destruct (bolt.begin_err io); [eauto|]; cbv zeta.
      destruct (length blob =? 0); [eauto|].
      destruct (bolt.end_err io); [eauto|].
      destruct (Unmarshal blob blank) as [[u|e'] a]; [discriminate He|eauto].
    + rewrite GetAccount_result, Hblob; cbn [bolt.healthy bolt.begin_err bolt.end_err].
      cbv zeta; destruct (length blob =? 0); [reflexivity|].
      destruct (Unmarshal blob blank) as [[u|e'] a]; [discriminate He|].
      cbn [fst] in He; apply Err_inj in He; subst e'; reflexivity.
Qed.

(** C9, as the code has it: the byte at offset 16 of a 63-byte blob
    never decides whether [Unmarshal] accepts the blob, and it is stored
    as the account's [Type] whatever its value; the two declared types
    are the bytes 1 ([OneTimeBalance]) and 2 ([PeriodicBalance]). *)
Theorem Unmarshal_stores_any_type_byte
    (id : bytes) (ty : byte) (rest : bytes) (a0 : OffChainBalanceAccount) :
  length id = 16 -> length rest = 46 ->
  Type_ (snd (Unmarshal (id ++ ty :: rest) a0)) = ty /\
  (forall ty', fst (Unmarshal (id ++ ty' :: rest) a0) =
               fst (Unmarshal (id ++ ty :: rest) a0)) /\
  OneTimeBalance = x01 /\ PeriodicBalance = x02.
Proof.
  intros Hid Hrest.
  assert (Hsplit : rest = firstn 8 rest ++ firstn 8 (skipn 8 rest) ++
                          firstn 15 (skipn 16 rest) ++ skipn 31 rest).
  { do 46 (destruct rest as [|? rest]; [discriminate Hrest|]).
    destruct rest; [reflexivity|discriminate Hrest]. }
  assert (Hib : length (firstn 8 rest) = 8)
    by (rewrite length_firstn; lia).
  assert (Hcb : length (firstn 8 (skipn 8 rest)) = 8)
    by (rewrite length_firstn, length_skipn; lia).
  assert (Hlu : length (firstn 15 (skipn 16 rest)) = 15)
    by (rewrite length_firstn, length_skipn; lia).
  assert (Hed : length (skipn 31 rest) = 15)
    by (rewrite length_skipn; lia).
  rewrite Hsplit.
  assert (L : forall b,
             Unmarshal (id ++ b :: firstn 8 rest ++ firstn 8 (skipn 8 rest) ++
                        firstn 15 (skipn 16 rest) ++ skipn 31 rest) a0 =
             Unmarshal (id ++ [b] ++ firstn 8 rest ++ firstn 8 (skipn 8 rest) ++
                        firstn 15 (skipn 16 rest) ++ skipn 31 rest) a0)
    by reflexivity.
  split; [|split; [|split; reflexivity]].
  - rewrite L, (@Unmarshal_layout TC id ty _ _ _ _ a0 Hid Hib Hcb Hlu Hed).
    destruct (time.UnmarshalBinary (firstn 15 (skipn 16 rest))); [|reflexivity].
    destruct (time.UnmarshalBinary (skipn 31 rest)); reflexivity.
  - intros ty'.
    rewrite !L, (@Unmarshal_layout TC id ty _ _ _ _ a0 Hid Hib Hcb Hlu Hed),
      (@Unmarshal_layout TC id ty' _ _ _ _ a0 Hid Hib Hcb Hlu Hed).
    destruct (time.UnmarshalBinary (firstn 15 (skipn 16 rest))); [|reflexivity].
    destruct (time.UnmarshalBinary (skipn 31 rest)); reflexivity.
Qed.

(** The bytes [Marshal] returns for a record whose two times the
    15-byte fields carry unmarshal into any receiver to a record with
    the same fields (times compared by [Equal], as the repository's
    test compares them). *)
Lemma Unmarshal_of_Marshal (a : OffChainBalanceAccount) :
  well_typed a ->
  carried (LastUpdate a) -> carried (ExpirationDate a) ->
  exists marshaled,
    Marshal a = Ok marshaled /\
    forall a0, length (ID a0) = AccountIDLen ->
      exists a', Unmarshal marshaled a0 = (Ok tt, a') /\ same_account a a'.
Proof.
  intros (Hid & Hib & Hcb) (lu & t1 & Hlu & Llu & Ut1 & Et1)
    (ed & t2 & Hed & Led & Ut2 & Et2).
  eexists; split; [apply (Marshal_layout a Hlu Hed)|].
  intros a0 Ha0.
  rewrite (copy_full (make 15) lu), (copy_full (make 15) ed),
    (copy_full (make 16) (ID a))
    by (rewrite make_length; unfold AccountIDLen in *; congruence).
  rewrite (@Unmarshal_layout TC (ID a) (Type_ a) _ _ lu ed a0 Hid
             (le_bytes_length 8 _) (le_bytes_length 8 _) Llu Led).
  rewrite Ut1, Ut2.
  eexists; split; [reflexivity|].
  unfold same_account, plain_fields.
  cbn [ID Type_ InitialBalance CurrentBalance LastUpdate ExpirationDate
       set_ID set_Type set_InitialBalance set_CurrentBalance
       set_LastUpdate set_ExpirationDate].
  rewrite copy_full by congruence.
  rewrite !Uint64_PutUint64 by assumption.
  repeat split; assumption.
Qed.

(** A time that marshals to more than 15 bytes is cut to its first 15
    in the bytes [Marshal] returns. *)
Lemma Marshal_cuts_long_times (a : OffChainBalanceAccount) (lu ed : bytes) :
  length (ID a) = AccountIDLen ->
  time.MarshalBinary (LastUpdate a) = Ok lu -> 15 <= length lu ->
  time.MarshalBinary (ExpirationDate a) = Ok ed -> 15 <= length ed ->
  Marshal a =
    Ok (ID a ++ [Type_ a] ++
        binary.le_bytes 8 (InitialBalance a) ++
        binary.le_bytes 8 (CurrentBalance a) ++
        firstn 15 lu ++ firstn 15 ed).
Proof.
  intros Hid Hlu Llu Hed Led.
  rewrite (Marshal_layout a Hlu Hed).
  rewrite (copy_full (make 16) (ID a))
    by (rewrite make_length; unfold AccountIDLen in *; congruence).
  assert (Hcut : forall src, 15 <= length src ->
                   copy (make 15) src = firstn 15 src).
  { intros src Hsrc.
    do 15 (destruct src as [|? src]; [cbn in Hsrc; lia|]).
    reflexivity. }
  rewrite !Hcut by assumption; reflexivity.
Qed.

End RecordClaims.

(** With package time's own codec the round trip holds for every record
    whose two times are in UTC or in a zone a whole number of minutes
    from it. *)
Lemma roundtrip_in_whole_minute_zones
    (a : @account.OffChainBalanceAccount time.Go) :
  account.well_typed a ->
  time.valid (account.LastUpdate a) ->
  time.whole_minutes (account.LastUpdate a) ->
  time.valid (account.ExpirationDate a) ->
  time.whole_minutes (account.ExpirationDate a) ->
  exists marshaled,
    account.Marshal a = Ok marshaled /\
    forall a0 : @account.OffChainBalanceAccount time.Go,
      length (account.ID a0) = account.AccountIDLen ->
      exists a', account.Unmarshal marshaled a0 = (Ok tt, a') /\
                 account.same_account a a'.
Proof.
  intros Hwt Hv1 Hz1 Hv2 Hz2.
  apply (@Unmarshal_of_Marshal time.Go a Hwt).
  - exact (Go_whole_minutes_carried Hv1 Hz1).
  - exact (Go_whole_minutes_carried Hv2 Hz2).
Qed.

(** C1: the round trip fails at a record whose time stamps marshal.
    The expiration date of [sample.odd_account] is in a zone thirty
    seconds east of UTC; package time marshals it to 16 bytes (binary
    version 2), of which [Marshal] copies the first 15 into the 63
    bytes it returns, and [Unmarshal] answers these 63 bytes with
    package time's "invalid length". *)
Theorem fractional_minute_zone_breaks_the_roundtrip :
  account.well_typed sample.odd_account /\
  (exists lu ed,
     time.MarshalBinary (account.LastUpdate sample.odd_account) = Ok lu /\
     time.MarshalBinary (account.ExpirationDate sample.odd_account) = Ok ed /\
     length lu = 15 /\ length ed = 16) /\
  exists marshaled,
    account.Marshal sample.odd_account = Ok marshaled /\
    length marshaled = 63 /\
    fst (account.Unmarshal (TC := time.Go) marshaled account.blank) =
      Err (ErrForeign "time" "Time.UnmarshalBinary: invalid length").
Proof.
  split; [repeat split; cbn; lia|split].
  - do 2 eexists; repeat split; reflexivity.
  - eexists; repeat split; reflexivity.
Qed.

(** The round trip on the account of the repository's test, with
    package time's own codec. *)
Lemma roundtrip_of_account9735 :
  exists marshaled,
    account.Marshal fixture.account9735 = Ok marshaled /\
    forall a0, length (account.ID a0) = account.AccountIDLen ->
      exists a', account.Unmarshal marshaled a0 = (Ok tt, a') /\
                 account.same_account fixture.account9735 a'.
Proof.
  apply roundtrip_in_whole_minute_zones.
  - repeat split; cbn; lia.
  - split; cbn; lia.
  - repeat split; try reflexivity; cbn; lia.
  - split; cbn; lia.
  - exact I.
Qed.

(** [Unmarshal] and [GetAccount] on a stored blob of 62 bytes and on
    the blob of 63 zero bytes. *)
Lemma rejection_of_short_and_zero_blobs :
  account.Unmarshal (TC := time.Go) (repeat x00 62) account.blank =
    (Err ErrMalformed, account.blank) /\
  (exists e',
     fst (account.GetAccount (TC := time.Go) bolt.healthy fixture.id16
            (fixture.ledger_with fixture.zeros63)) = Err e').
Proof.
  pose proof (@Unmarshal_rejects_undecodable_blob time.Go (repeat x00 62)
                account.blank) as [H62 _].
  pose proof (@Unmarshal_rejects_undecodable_blob time.Go fixture.zeros63
                account.blank) as (_ & _ & _ & H63).
  split.
  - apply H62; cbn; lia.
  - exact (proj1 (H63 bolt.healthy fixture.id16
                    (fixture.ledger_with fixture.zeros63) _ eq_refl eq_refl)).
Qed.

(** C2: a stored blob that cannot be unmarshaled is not always answered
    with [ErrMalformed], the error declared for it.  The 63 zero bytes
    have the right length and time fields that do not decode (no
    version byte): [Unmarshal] returns package time's error as it is,
    and so does [GetAccount]. *)
Theorem undecodable_timestamp_is_not_ErrMalformed :
  length fixture.zeros63 = 63 /\
  time.UnmarshalBinary (Codec := time.Go) (firstn 15 (skipn 33 fixture.zeros63)) =
    Err (ErrForeign "time" "Time.UnmarshalBinary: unsupported version") /\
  fst (account.Unmarshal (TC := time.Go) fixture.zeros63 account.blank) =
    Err (ErrForeign "time" "Time.UnmarshalBinary: unsupported version") /\
  fst (account.GetAccount (TC := time.Go) bolt.healthy fixture.id16
         (fixture.ledger_with fixture.zeros63)) =
    Err (ErrForeign "time" "Time.UnmarshalBinary: unsupported version") /\
  ErrForeign "time" "Time.UnmarshalBinary: unsupported version" <> ErrMalformed.
Proof.
  repeat split; try reflexivity; discriminate.
Qed.

(** C9 on a blob whose type byte is 255. *)
Lemma type_byte_255_is_stored :
  account.Type_
    (snd (account.Unmarshal (TC := time.Go) (fixture.blob_of_type xff)
            account.blank)) = xff /\
  (forall ty',
     fst (account.Unmarshal (TC := time.Go) (fixture.blob_of_type ty')
            account.blank) =
     fst (account.Unmarshal (TC := time.Go) (fixture.blob_of_type xff)
            account.blank)).
Proof.
  pose proof (@Unmarshal_stores_any_type_byte time.Go fixture.id16 xff
                fixture.tail46 account.blank eq_refl eq_refl) as (H1 & H2 & _).
  exact (conj H1 H2).
Defined.

(** The counterexample to C9 as stated: the type byte 0 decodes, and the
    type it decodes to is not [OneTimeBalance]; the type byte 2, outside
    the set the claim names, decodes to [PeriodicBalance]. *)
Lemma type_byte_0_is_not_OneTimeBalance :
  (fst (account.Unmarshal (TC := time.Go) (fixture.blob_of_type x00)
          account.blank) = Ok tt /\
   account.Type_
     (snd (account.Unmarshal (TC := time.Go) (fixture.blob_of_type x00)
             account.blank)) <> account.OneTimeBalance) /\
  (fst (account.Unmarshal (TC := time.Go) (fixture.blob_of_type x02)
          account.blank) = Ok tt /\
   account.Type_
     (snd (account.Unmarshal (TC := time.Go) (fixture.blob_of_type x02)
             account.blank)) = account.PeriodicBalance).
Proof.
  repeat split; try reflexivity.
  change (x00 <> x01); discriminate.
Qed.

(** ** The bucket *)

Lemma compare_refl (a : bytes) : bolt.compare a a = Eq.
Proof.
  induction a as [|x a IH]; simpl; [reflexivity|].
  rewrite N.compare_refl; exact IH.
Qed.

Lemma compare_eq (a b : bytes) : bolt.compare a b = Eq -> a = b.
Proof.
  revert b; induction a as [|x a IH]; intros [|y b]; simpl;
    try discriminate; [reflexivity|].
  destruct (N.compare (Byte.to_N x) (Byte.to_N y)) eqn:E; try discriminate.
  apply N.compare_eq in E.
  assert (x = y).
  { pose proof (Byte.of_to_N x) as Hx; pose proof (Byte.of_to_N y) as Hy.
    rewrite E in Hx; congruence. }
  intros H'; f_equal; auto.
Qed.

Lemma bytes_eqb_refl (a : bytes) : bytes_eqb a a = true.
Proof. unfold bytes_eqb; rewrite compare_refl; reflexivity. Qed.

Lemma bytes_eqb_eq (a b : bytes) : bytes_eqb a b = true -> a = b.
Proof.
  unfold bytes_eqb; destruct (bolt.compare a b) eqn:E; try discriminate.
  intros _; apply compare_eq; exact E.
Qed.

Lemma seek_insert_same (k v : bytes) (b : bolt.Bucket) :
  bolt.seek k (bolt.insert k v b) = Some (Some v).
Proof.
  induction b as [|[k' v'] b IH]; simpl.
  - rewrite compare_refl; reflexivity.
  - destruct (bolt.compare k k') eqn:E; simpl.
    + rewrite compare_refl; reflexivity.
    + rewrite compare_refl; reflexivity.
    + rewrite E; exact IH.
Qed.

Lemma seek_insert_other (k k' v : bytes) (b : bolt.Bucket) :
  bolt.compare k' k <> Eq ->
  bolt.seek k' (bolt.insert k v b) = bolt.seek k' b.
Proof.
  intros Hne; induction b as [|[k0 v0] b IH]; simpl.
  - destruct (bolt.compare k' k); [contradiction| |]; reflexivity.
  - destruct (bolt.compare k k0) eqn:E; simpl.
    + apply compare_eq in E; subst k0.
      destruct (bolt.compare k' k); [contradiction| |]; reflexivity.
    + destruct (bolt.compare k' k); [contradiction| |]; reflexivity.
    + destruct (bolt.compare k' k0); [reflexivity| |]; exact IH.
Qed.

Lemma value_insert_same (k v : bytes) (b : bolt.Bucket) :
  bolt.value k (bolt.insert k v b) = v.
Proof. unfold bolt.value; rewrite seek_insert_same; reflexivity. Qed.

Lemma value_insert_other (k k' v : bytes) (b : bolt.Bucket) :
  bolt.compare k' k <> Eq ->
  bolt.value k' (bolt.insert k v b) = bolt.value k' b.
Proof.
  intros Hne; unfold bolt.value; rewrite seek_insert_other by exact Hne.
  reflexivity.
Qed.

Lemma put_Ok (k v : bytes) (b b' : bolt.Bucket) :
  bolt.put k v b = Ok b' -> b' = bolt.insert k v b.
Proof.
  unfold bolt.put.
  destruct (length k =? 0); [discriminate|].
  destruct (Z.of_nat (length k) >? bolt.MaxKeySize)%Z; [discriminate|].
  destruct (Z.of_nat (length v) >? bolt.MaxValueSize)%Z; [discriminate|].
  destruct (bolt.seek k b) as [[w|]|]; try discriminate;
    intros E; apply Ok_inj in E; auto.
Qed.

(** ** The account store *)

Section LedgerClaims.
Context {TC : time.Codec}.

Import account.

Lemma Marshal_Ok_inv (a : OffChainBalanceAccount) (marshaled : bytes) :
  Marshal a = Ok marshaled ->
  exists lu ed,
    time.MarshalBinary (LastUpdate a) = Ok lu /\
    time.MarshalBinary (ExpirationDate a) = Ok ed.
Proof.
  unfold Marshal.
  destruct (time.MarshalBinary (LastUpdate a)) as [lu|e]; [|discriminate].
  destruct (time.MarshalBinary (ExpirationDate a)) as [ed|e]; [|discriminate].
  eauto.
Qed.

(** [readFn] over the pairs of a bucket of which every value decodes:
    the decoded records are appended in order. *)
Lemma each_readFn_Ok (items : bolt.Bucket) (s : World AccountStorage)
    (acc : list OffChainBalanceAccount) :
  (forall k v, In (k, Some v) items -> fst (Unmarshal v blank) = Ok tt) ->
  bolt.each readFn items (s, acc) = (Ok tt, (s, acc ++ decoded items)).
Proof.
  revert acc; induction items as [|[k [v|]] items IH]; intros acc Hall.
  - simpl; unfold ret; rewrite app_nil_r; reflexivity.
  - cbn [bolt.each decoded flat_map snd]; unfold bind at 1.
    pose proof (Hall k v (or_introl eq_refl)) as Hv.
    unfold readFn; destruct (Unmarshal v blank) as [[[]|e] a];
      [|discriminate Hv].
    unfold bind, captured, gets, assign, modify; cbn [fst snd].
    fold (decoded items).
    rewrite IH by (intros k' v' Hin; apply (Hall k' v'); right; exact Hin).
    rewrite <- app_assoc; reflexivity.
  - cbn [bolt.each decoded flat_map snd app]; unfold bind at 1.
    unfold readFn, ret; fold (decoded items).
    apply IH; intros k' v' Hin; apply (Hall k' v'); right; exact Hin.
Qed.

(** [readFn] over the pairs of a bucket of which one value does not
    decode: the iteration ends in an error. *)
Lemma each_readFn_Err (items : bolt.Bucket) (s : World AccountStorage)
    (acc : list OffChainBalanceAccount) (k v : bytes) (e : error) :
  In (k, Some v) items -> fst (Unmarshal v blank) = Err e ->
  exists e' acc', bolt.each readFn items (s, acc) = (Err e', (s, acc')).
Proof.
  revert acc; induction items as [|[k0 [v0|]] items IH]; intros acc Hin Hbad.
  - destruct Hin.
  - cbn [bolt.each]; unfold bind at 1.
    unfold readFn at 1.
    destruct (Unmarshal v0 blank) as [[[]|e0] a] eqn:Hv0.
    + unfold bind, captured, gets, assign, modify; cbn [fst snd].
      destruct Hin as [Hhd|Htl]; [|apply IH; assumption].
      injection Hhd as -> ->; rewrite Hv0 in Hbad; discriminate Hbad.
    + unfold throw; eauto.
  - cbn [bolt.each]; unfold bind at 1; unfold readFn at 1, ret.
    destruct Hin as [Hhd|Htl]; [discriminate Hhd|apply IH; assumption].
Qed.

(** C7: when a stored value fails to decode, [GetAccounts] returns an
    error in place of the list, whatever the transaction does; when
    every stored value decodes, it returns the decoded records, all of
    them and in key order. *)
Theorem GetAccounts_all_or_nothing (io : bolt.Fault)
    (s : World AccountStorage) :
  ((exists k v e, In (k, Some v) (bolt.bucket (DB (self s))) /\
                  fst (Unmarshal v blank) = Err e) ->
   exists e', fst (GetAccounts io s) = Err e') /\
  ((forall k v, In (k, Some v) (bolt.bucket (DB (self s))) ->
                exists a, Unmarshal v blank = (Ok tt, a)) ->
   fst (GetAccounts bolt.healthy s) =
     Ok (decoded (bolt.bucket (DB (self s))))).
Proof.
  split.
  - intros (k & v & e & Hin & Hbad).
    unfold GetAccounts, with_captured, bolt.View, bolt.ForEach.
    destruct (bolt.begin_err io) as [e0|]; [cbn; eauto|].
    tx_simpl.
    match goal with
    | |- context [bolt.each readFn ?items ?st] =>
        destruct (@each_readFn_Err items (fst st) (snd st) k v e Hin Hbad)
          as (e' & acc' & Heach)
    end.
    cbn [fst snd] in Heach; rewrite Heach; tx_simpl; eauto.
  - intros Hall.
    unfold GetAccounts, with_captured, bolt.View, bolt.ForEach.
    tx_simpl.
    rewrite each_readFn_Ok.
    + tx_simpl; reflexivity.
    + intros k v Hin; destruct (Hall k v Hin) as (a & Ha); rewrite Ha.
      reflexivity.
Qed.

(** What a successful [NewAccount] did: the account it returns, and
    the bytes it stored under the account's ID. *)
Lemma NewAccount_Ok_inv (io : bolt.Fault) (now : time.Time) (balance : Z)
    (expirationDate : time.Time) (s s' : World AccountStorage)
    (a : OffChainBalanceAccount) :
  NewAccount io now balance expirationDate s = Some (Ok a, s') ->
  a = {| ID := firstn AccountIDLen (Reader s);
         Type_ := OneTimeBalance;
         InitialBalance := balance;
         CurrentBalance := balance;
         LastUpdate := now;
         ExpirationDate := expirationDate |} /\
  length (ID a) = AccountIDLen /\
  Reader s' = skipn AccountIDLen (Reader s) /\
  exists blob,
    Marshal a = Ok blob /\
    bolt.bucket (DB (self s')) = bolt.insert (ID a) blob (bolt.bucket (DB (self s))).
Proof.
  unfold NewAccount, rand.Read, rand.ReadFull; tx_simpl.
  destruct (Nat.ltb_spec (length (Reader s)) AccountIDLen) as [|Hpool].
  { destruct (length (Reader s) =? 0); discriminate. }
  assert (Hfresh : length (firstn AccountIDLen (Reader s)) = AccountIDLen)
    by (rewrite length_firstn; lia).
  cbn [ID]; rewrite (copy_full (make AccountIDLen)) by
    (rewrite make_length, Hfresh; reflexivity).
  set (account := set_ID _ _).
  unfold bolt.Update, bind, try, bolt.Put; tx_simpl.
  destruct (bolt.begin_err io); [discriminate|].
  destruct (Marshal account) as [blob|e] eqn:HM; [|discriminate].
  destruct (bolt.put (ID account) blob (bolt.bucket (DB (self s))))
    as [b'|e] eqn:Hput; [|discriminate].
  destruct (bolt.end_err io); [discriminate|].
  tx_simpl; intros E; injection E as <- <-.
  split; [reflexivity|split; [exact Hfresh|split; [reflexivity|]]].
  exists blob; split; [exact HM|].
  apply put_Ok in Hput; exact Hput.
Qed.

(** A successful [NewAccount] returns a [OneTimeBalance] account with
    both balances equal to the given one, the given expiration date,
    the creation time, and as its ID the next 16 bytes of
    [rand.Reader]; when the 15-byte fields carry the two times,
    [GetAccount] on that ID then returns a record with the same
    fields. *)
Lemma NewAccount_then_GetAccount (io : bolt.Fault) (now : time.Time)
    (balance : Z) (expirationDate : time.Time)
    (s s' : World AccountStorage) (a : OffChainBalanceAccount) :
  (0 <= balance < 2 ^ 64)%Z ->
  NewAccount io now balance expirationDate s = Some (Ok a, s') ->
  Type_ a = OneTimeBalance /\
  InitialBalance a = balance /\
  CurrentBalance a = balance /\
  LastUpdate a = now /\
  ExpirationDate a = expirationDate /\
  ID a = firstn AccountIDLen (Reader s) /\
  length (ID a) = AccountIDLen /\
  Reader s' = skipn AccountIDLen (Reader s) /\
  (carried now -> carried expirationDate ->
   exists a', fst (GetAccount bolt.healthy (ID a) s') = Ok a' /\
              same_account a a').
Proof.
  intros Hbal H.
  apply NewAccount_Ok_inv in H as (Ha & Hid & Hrd & blob & HM & Hb).
  repeat (split; [subst a; reflexivity || exact Hid || exact Hrd|]).
  intros Hnow Hexp.
  assert (Hwt : well_typed a)
    by (subst a; repeat split; try exact Hid; apply Hbal).
  destruct (@Unmarshal_of_Marshal TC a Hwt) as (blob' & HM' & Hrt).
  { subst a; exact Hnow. }
  { subst a; exact Hexp. }
  rewrite HM in HM'; apply Ok_inj in HM'; subst blob'.
  destruct (Hrt blank (make_length _)) as (a' & Ha' & Hsame).
  exists a'; split; [|exact Hsame].
  rewrite GetAccount_result; tx_simpl; cbv zeta.
  rewrite Hb, value_insert_same, (Marshal_length _ HM), Ha'; reflexivity.
Qed.

End LedgerClaims.

(** C7 on a store of two values: with the second one undecodable the
    call fails, without it the one account is returned. *)
Lemma accounts_of_two_values :
  (exists e',
     fst (account.GetAccounts (TC := time.Go) bolt.healthy
            (fixture.ledger_of_two true)) = Err e') /\
  fst (account.GetAccounts (TC := time.Go) bolt.healthy
         (fixture.ledger_of_two false)) =
    Ok (account.decoded (TC := time.Go)
          [(fixture.id16, Some (fixture.blob_of_type x01))]).
Proof.
  split.
  - apply (proj1 (@GetAccounts_all_or_nothing time.Go bolt.healthy
                    (fixture.ledger_of_two true))).
    exists [xff], fixture.zeros63,
      (ErrForeign "time" "Time.UnmarshalBinary: unsupported version"); split.
    + right; left; reflexivity.
    + reflexivity.
  - apply (proj2 (@GetAccounts_all_or_nothing time.Go bolt.healthy
                    (fixture.ledger_of_two false))).
    intros k v [E|[]]; injection E as <- <-.
    exists (snd (account.Unmarshal (TC := time.Go) (fixture.blob_of_type x01)
                   account.blank)).
    reflexivity.
Defined.

(** The scenario of the repository's test: an account of 9735 expiring
    at [testExpDate], created in an empty store, is fetched back. *)
Lemma account_9735_is_fetched_back :
  exists s',
    account.NewAccount (TC := time.Go) bolt.healthy fixture.created 9735
      fixture.testExpDate fixture.fresh_ledger =
      Some (Ok fixture.account9735, s') /\
    exists a',
      fst (account.GetAccount (TC := time.Go) bolt.healthy fixture.id16 s') =
        Ok a' /\
      account.same_account fixture.account9735 a'.
Proof.
  eexists; split; [reflexivity|].
  refine (proj2 (proj2 (proj2 (proj2 (proj2 (proj2 (proj2 (proj2
            (@NewAccount_then_GetAccount time.Go bolt.healthy
               fixture.created 9735%Z fixture.testExpDate
               fixture.fresh_ledger _ fixture.account9735 _ eq_refl)))))))) _ _).
  - lia.
  - apply Go_whole_minutes_carried;
      [split; cbn; lia|repeat split; try reflexivity; cbn; lia].
  - apply Go_whole_minutes_carried; [split; cbn; lia|exact I].
Qed.

(** C8: a successful [NewAccount] after which [GetAccount] fails.  The
    expiration date is in a zone thirty seconds east of UTC: package
    time marshals it to 16 bytes, [NewAccount] stores the record with
    the first 15 of them and returns the account, and [GetAccount] on
    the ID of that account returns package time's "invalid length"
    instead of the account. *)
Theorem fractional_minute_zone_account_is_not_fetched_back :
  exists s',
    account.NewAccount (TC := time.Go) bolt.healthy fixture.created 9735
      sample.odd_zone fixture.fresh_ledger = Some (Ok sample.odd_account, s') /\
    account.ID sample.odd_account = fixture.id16 /\
    length (bolt.value fixture.id16 (bolt.bucket (account.DB (self s')))) = 63 /\
    fst (account.GetAccount (TC := time.Go) bolt.healthy fixture.id16 s') =
      Err (ErrForeign "time" "Time.UnmarshalBinary: invalid length").
Proof.
  eexists; repeat split; reflexivity.
Qed.

(** ** The symbolic scheme keeps the contract of snacl *)

Lemma unspell_spell (word rest : bytes) :
  snacl.unspell (snacl.spell word rest) = Some (word, rest).
Proof.
  induction word as [|b word IH]; simpl; [reflexivity|].
  rewrite IH; reflexivity.
Qed.

Lemma symDecrypt_Ok (k : bytes * bytes) (c m : bytes) :
  snacl.symDecrypt k c = Ok m ->
  exists salt pw c',
    snacl.unspell c = Some (salt, c') /\ snacl.unspell c' = Some (pw, m) /\
    k = (salt, pw).
Proof.
  unfold snacl.symDecrypt.
  destruct (snacl.unspell c) as [[salt c']|] eqn:U1; [|discriminate].
  destruct (snacl.unspell c') as [[pw m']|] eqn:U2; [|discriminate].
  destruct (bytes_eqb salt (fst k)) eqn:Es; [|discriminate].
  destruct (bytes_eqb pw (snd k)) eqn:Ep; [|discriminate].
  cbn [andb]; intros E; apply Ok_inj in E; subst m'.
  apply bytes_eqb_eq in Es, Ep.
  exists salt, pw, c'; split; [reflexivity|split; [exact U2|]].
  destruct k; cbn in *; congruence.
Qed.

Lemma Symbolic_Lawful : snacl.Lawful snacl.Symbolic.
Proof.
  split; cbn.
  - intros pw N r p salt k E; apply Ok_inj in E; subst k.
    exists (salt, pw); cbn [fst snd]; unfold snacl.symUnmarshal.
    rewrite unspell_spell; split; [reflexivity|].
    unfold snacl.symDeriveKey; cbn [fst snd]; rewrite bytes_eqb_refl.
    reflexivity.
  - discriminate.
  - intros k nonce m c E; apply Ok_inj in E; subst c.
    destruct (fst k); discriminate.
  - intros k nonce m c E; apply Ok_inj in E; subst c.
    unfold snacl.symDecrypt; rewrite !unspell_spell, !bytes_eqb_refl.
    reflexivity.
  - intros k k' c m m' H H'.
    apply symDecrypt_Ok in H as (salt & pw & c1 & U1 & U2 & ->).
    apply symDecrypt_Ok in H' as (salt' & pw' & c1' & U1' & U2' & ->).
    congruence.
  - intros ps pw pw' k; unfold snacl.symDeriveKey.
    destruct (bytes_eqb pw (snd ps)); [|discriminate].
    destruct (bytes_eqb pw' (snd ps)); [|discriminate].
    intros H H'; congruence.
Qed.

(** ** The root-key store *)

Lemma length_eqb_0 (l : bytes) : (length l =? 0) = false <-> l <> [].
Proof.
  destruct l; simpl; split; intros H;
    reflexivity || discriminate || (exfalso; apply H; reflexivity).
Qed.

Lemma length_ltb_0 (l : bytes) : (0 <? length l) = true <-> l <> [].
Proof.
  destruct l; simpl; split; intros H;
    reflexivity || discriminate || (exfalso; apply H; reflexivity).
Qed.

Lemma key_ids_differ :
  bolt.compare store.defaultRootKeyID store.encryptionKeyID <> Eq /\
  bolt.compare store.encryptionKeyID store.defaultRootKeyID <> Eq.
Proof. split; discriminate. Qed.

Section StoreProperties.
Context {SC : snacl.Scheme}.

Import store.

(** A call that fails for any reason but the commit leaves the key in
    memory as it was. *)
Lemma CreateUnlock_failure_keeps_key (io : bolt.Fault)
    (password : option bytes) (r r' : World RootKeyStorage) (e : error) :
  bolt.end_err io = None ->
  CreateUnlock io password r = (Err e, r') ->
  encKey (self r') = encKey (self r).
Proof.
  intros Hio H; unfold CreateUnlock, CreateUnlock_tx in H.
  tx_unfold; tx_simpl; rewrite Hio in H.
  repeat branch; outcome H; congruence.
Qed.

Lemma ChangePassword_failure_keeps_key (io : bolt.Fault)
    (oldPassword newPassword : option bytes)
    (r r' : World RootKeyStorage) (e : error) :
  bolt.end_err io = None ->
  ChangePassword io oldPassword newPassword r = (Err e, r') ->
  encKey (self r') = encKey (self r).
Proof.
  intros Hio H; unfold ChangePassword, ChangePassword_tx in H.
  tx_unfold; tx_simpl; rewrite Hio in H.
  repeat branch; outcome H; congruence.
Qed.

(** A successful [RootKey] either read the stored key or, finding none,
    drew a new one and wrote its ciphertext. *)
Lemma RootKey_Ok_inv (io : bolt.Fault) (r r1 : World RootKeyStorage)
    (key id : bytes) :
  RootKey io r = (Ok (key, id), r1) ->
  exists k,
    encKey (self r) = Some k /\ encKey (self r1) = Some k /\
    id = defaultRootKeyID /\
    ((bolt.value defaultRootKeyID (bolt.bucket (DB (self r))) <> [] /\
      snacl.Decrypt k
        (bolt.value defaultRootKeyID (bolt.bucket (DB (self r)))) = Ok key /\
      bolt.bucket (DB (self r1)) = bolt.bucket (DB (self r)) /\
      bolt.log (DB (self r1)) =
        [bolt.EvCommit; bolt.EvGet defaultRootKeyID; bolt.EvBegin true] ++
        bolt.log (DB (self r)))
     \/
     (bolt.value defaultRootKeyID (bolt.bucket (DB (self r))) = [] /\
      length key = RootKeyLen /\
      exists nonce c,
        snacl.Encrypt k nonce key = Ok c /\
        bolt.bucket (DB (self r1)) =
          bolt.insert defaultRootKeyID c (bolt.bucket (DB (self r))) /\
        bolt.log (DB (self r1)) =
          [bolt.EvCommit; bolt.EvPut defaultRootKeyID c;
           bolt.EvGet defaultRootKeyID; bolt.EvBegin true] ++
          bolt.log (DB (self r)))).
Proof.
  intros H; unfold RootKey, RootKey_tx in H.
  tx_unfold; tx_simpl.
  destruct (encKey (self r)) as [k|] eqn:Hk; [|discriminate H].
  exists k.
  destruct (length (bolt.value defaultRootKeyID (bolt.bucket (DB (self r)))) =? 0)
    eqn:Hlen; cbn [negb] in H.
  - (* no key stored: one is made *)
    apply Nat.eqb_eq, length_zero_iff_nil in Hlen.
    repeat branch.
    outcome H.
    match goal with
    | Hp : (length (Reader r) <? RootKeyLen) = false |- _ =>
        apply Nat.ltb_ge in Hp;
        assert (Hfresh : length (firstn RootKeyLen (Reader r)) = RootKeyLen)
          by (rewrite length_firstn; lia)
    end.
    rewrite (copy_full (make RootKeyLen)) in *
      by (rewrite make_length, Hfresh; reflexivity).
    repeat split; try reflexivity.
    right; repeat split; try assumption.
    match goal with
    | He : snacl.Encrypt k ?nonce _ = Ok ?c, Hput : bolt.put _ _ _ = Ok _ |- _ =>
        exists nonce, c; apply put_Ok in Hput; subst; repeat split;
          assumption || reflexivity
    end.
  - (* a key is stored: it is decrypted *)
    apply length_eqb_0 in Hlen.
    repeat branch.
    outcome H.
    rewrite copy_make.
    repeat split; try reflexivity.
    left; repeat split; assumption || reflexivity.
Qed.

(** [RootKey] on a store that has a ciphertext under the default id. *)
Lemma RootKey_read (io : bolt.Fault) (r : World RootKeyStorage)
    (k : snacl.SecretKey) (c : bytes) :
  encKey (self r) = Some k ->
  bolt.value defaultRootKeyID (bolt.bucket (DB (self r))) = c ->
  c <> [] ->
  fst (RootKey io r) =
    match bolt.begin_err io with
    | Some e => Err e
    | None =>
        match snacl.Decrypt k c with
        | Err e => Err e
        | Ok m =>
            match bolt.end_err io with
            | Some e => Err e
            | None => Ok (m, defaultRootKeyID)
            end
        end
    end.
Proof.
  intros Hk Hc Hne; unfold RootKey, RootKey_tx.
  tx_unfold; tx_simpl; rewrite Hk, Hc.
  apply length_eqb_0 in Hne; rewrite Hne; cbn [negb].
  destruct (bolt.begin_err io); [reflexivity|].
  destruct (snacl.Decrypt k c) as [m|e]; [|reflexivity].
  tx_simpl; destruct (bolt.end_err io); [reflexivity|].
  tx_simpl; rewrite copy_make; reflexivity.
Qed.

(** [CreateUnlock] on a locked store that has stored parameters: the
    key is derived from them, nothing is written. *)
Lemma CreateUnlock_existing_inv (io : bolt.Fault) (password : bytes)
    (r r2 : World RootKeyStorage) :
  encKey (self r) = None ->
  bolt.value encryptionKeyID (bolt.bucket (DB (self r))) <> [] ->
  CreateUnlock io (Some password) r = (Ok tt, r2) ->
  exists ps k,
    snacl.Unmarshal
      (bolt.value encryptionKeyID (bolt.bucket (DB (self r)))) = Ok ps /\
    snacl.DeriveKey ps password = Ok k /\
    encKey (self r2) = Some k /\
    bolt.bucket (DB (self r2)) = bolt.bucket (DB (self r)).
Proof.
  intros Hk Hne H; unfold CreateUnlock, CreateUnlock_tx in H.
  tx_unfold; tx_simpl; rewrite Hk in H.
  apply length_ltb_0 in Hne; rewrite Hne in H.
  repeat branch.
  outcome H; do 2 eexists; repeat split; eassumption || reflexivity.
Qed.

Lemma CreateUnlock_existing_Ok (password : bytes)
    (r : World RootKeyStorage) (ps : snacl.Parameters) (k : snacl.SecretKey) :
  encKey (self r) = None ->
  bolt.value encryptionKeyID (bolt.bucket (DB (self r))) <> [] ->
  snacl.Unmarshal
    (bolt.value encryptionKeyID (bolt.bucket (DB (self r)))) = Ok ps ->
  snacl.DeriveKey ps password = Ok k ->
  exists r2, CreateUnlock bolt.healthy (Some password) r = (Ok tt, r2).
Proof.
  intros Hk Hne Hps Hd; unfold CreateUnlock, CreateUnlock_tx.
  tx_unfold; tx_simpl; rewrite Hk.
  apply length_ltb_0 in Hne; rewrite Hne, Hps, Hd; tx_simpl.
  eexists; reflexivity.
Qed.

(** What a successful [ChangePassword] did. *)
Lemma ChangePassword_Ok_inv (io : bolt.Fault) (oldPassword newPassword : bytes)
    (r r' : World RootKeyStorage) :
  ChangePassword io (Some oldPassword) (Some newPassword) r = (Ok tt, r') ->
  exists ps encKeyOld encKeyNew salt rootKey nonce encryptedKey,
    snacl.Unmarshal
      (bolt.value encryptionKeyID (bolt.bucket (DB (self r)))) = Ok ps /\
    snacl.DeriveKey ps oldPassword = Ok encKeyOld /\
    snacl.NewSecretKey newPassword snacl.DefaultN snacl.DefaultR
      snacl.DefaultP salt = Ok encKeyNew /\
    snacl.Decrypt encKeyOld
      (bolt.value defaultRootKeyID (bolt.bucket (DB (self r)))) = Ok rootKey /\
    snacl.Encrypt encKeyNew nonce rootKey = Ok encryptedKey /\
    bolt.bucket (DB (self r')) =
      bolt.insert encryptionKeyID (snacl.Marshal encKeyNew)
        (bolt.insert defaultRootKeyID encryptedKey (bolt.bucket (DB (self r)))) /\
    encKey (self r') = Some encKeyNew /\
    Reader r' = skipn snacl.NonceSize (skipn snacl.KeySize (Reader r)).
Proof.
  intros H; unfold ChangePassword, ChangePassword_tx in H.
  tx_unfold; tx_simpl.
  repeat branch.
  outcome H.
  rewrite copy_make in *.
  repeat match goal with
         | Hput : bolt.put _ _ _ = Ok _ |- _ => apply put_Ok in Hput
         end; subst.
  do 7 eexists; repeat split; eassumption || reflexivity.
Qed.

End StoreProperties.

Section StoreClaims.
Context {SC : snacl.Scheme}.

Import store.

(** C3: on a locked store [Get], [RootKey], [ChangePassword] and
    [GenerateNewRootKey] all return [ErrStoreLocked], whatever their
    arguments and whatever the storage engine would do, and the state
    after the call is the state before it: nothing was read from or
    written to the store (its bucket and its access log are those of
    before), and the key is still absent. *)
Theorem locked_store_refuses (r : World RootKeyStorage) :
  encKey (self r) = None ->
  (forall io id, Get io id r = (Err ErrStoreLocked, r)) /\
  (forall io, RootKey io r = (Err ErrStoreLocked, r)) /\
  (forall io oldPassword newPassword,
     ChangePassword io oldPassword newPassword r = (Err ErrStoreLocked, r)) /\
  (forall io, GenerateNewRootKey io r = (Err ErrStoreLocked, r)).
Proof.
  intros Hlocked.
  unfold Get, RootKey, ChangePassword, GenerateNewRootKey.
  rewrite Hlocked; repeat split.
Qed.

(** C4, as the code has it: an absent (nil) password makes
    [CreateUnlock] on a locked store, and [ChangePassword] on an
    unlocked one, return [ErrPasswordRequired] and leave the state as it
    was. *)
Theorem nil_password_is_refused (r : World RootKeyStorage) :
  (encKey (self r) = None ->
   forall io, CreateUnlock io None r = (Err ErrPasswordRequired, r)) /\
  (encKey (self r) <> None ->
   forall io oldPassword newPassword,
     oldPassword = None \/ newPassword = None ->
     ChangePassword io oldPassword newPassword r =
       (Err ErrPasswordRequired, r)).
Proof.
  unfold CreateUnlock, ChangePassword; split.
  - intros ->; reflexivity.
  - destruct (encKey (self r)); [|congruence].
    intros _ io [o|] [n|] [H|H]; congruence || reflexivity.
Qed.

Context {SL : snacl.Lawful SC}.

(** The root key a successful [RootKey] returned is the one the store
    holds afterwards. *)
Lemma RootKey_establishes (io : bolt.Fault) (r r1 : World RootKeyStorage)
    (key id : bytes) :
  RootKey io r = (Ok (key, id), r1) -> holds_root_key r1 key.
Proof.
  intros H; apply RootKey_Ok_inv in H
    as (k & Hk & Hk1 & _ & [(Hne & Hd & Hb & _)|(_ & _ & nonce & c & He & Hb & _)]);
    exists k; rewrite Hb.
  - auto.
  - rewrite value_insert_same; repeat split.
    + exact Hk1.
    + exact (snacl.encrypt_nonempty _ _ _ He).
    + exact (snacl.decrypt_encrypt _ _ _ He).
Qed.

(** C6: of two successful calls of [RootKey] in a row the second
    returns the bytes (and the id) of the first; the second writes no
    ciphertext, the first writes one only when none was stored, so the
    two together write at most one. *)
Theorem RootKey_twice (io1 io2 : bolt.Fault) (r r1 r2 : World RootKeyStorage)
    (key1 id1 key2 id2 : bytes) :
  RootKey io1 r = (Ok (key1, id1), r1) ->
  RootKey io2 r1 = (Ok (key2, id2), r2) ->
  key2 = key1 /\ id2 = id1 /\
  exists ev1 ev2,
    bolt.log (DB (self r1)) = ev1 ++ bolt.log (DB (self r)) /\
    bolt.log (DB (self r2)) = ev2 ++ bolt.log (DB (self r1)) /\
    writes_of defaultRootKeyID ev2 = 0 /\
    writes_of defaultRootKeyID (ev2 ++ ev1) <= 1 /\
    (bolt.value defaultRootKeyID (bolt.bucket (DB (self r))) <> [] ->
     writes_of defaultRootKeyID ev1 = 0).
Proof.
  intros H1 H2.
  pose proof (RootKey_establishes _ _ H1) as (k' & Hk' & Hne1 & Hd1).
  apply RootKey_Ok_inv in H1 as (k & Hk & Hk1 & -> & Hfirst).
  apply RootKey_Ok_inv in H2
    as (k2 & Hk2 & _ & -> & [(_ & Hd2 & _ & Hlog2)|(Hnil & _)]);
    [|contradiction].
  assert (k' = k) by congruence; assert (k2 = k) by congruence; subst k' k2.
  split; [congruence|split; [reflexivity|]].
  destruct Hfirst as [(Hne & _ & _ & Hlog1)|(Hnil & _ & nonce & c & _ & _ & Hlog1)];
    eexists; eexists; (split; [exact Hlog1|split; [exact Hlog2|]]).
  - repeat split; cbn; auto.
  - repeat split; cbn; auto; congruence.
Qed.

(** C5: after a successful [ChangePassword] on a store that holds the
    root key [K], [RootKey] still returns [K]; a fresh instance over the
    same storage unlocks with the new password and returns [K] too; a
    fresh instance unlocked with any password never returns a root key
    other than [K]; and with the old password, when it differs from the
    new one, either the unlock fails or [RootKey] fails. *)
Theorem ChangePassword_keeps_root_key (io : bolt.Fault)
    (oldPassword newPassword : bytes) (r r' : World RootKeyStorage)
    (K : bytes) :
  holds_root_key r K ->
  ChangePassword io (Some oldPassword) (Some newPassword) r = (Ok tt, r') ->
  fst (RootKey bolt.healthy r') = Ok (K, defaultRootKeyID) /\
  (exists r2,
     CreateUnlock bolt.healthy (Some newPassword) (reopen r') = (Ok tt, r2) /\
     fst (RootKey bolt.healthy r2) = Ok (K, defaultRootKeyID)) /\
  (forall io1 io2 password r2 key id,
     CreateUnlock io1 (Some password) (reopen r') = (Ok tt, r2) ->
     fst (RootKey io2 r2) = Ok (key, id) -> key = K) /\
  (oldPassword <> newPassword ->
   forall io1 io2 r2,
     CreateUnlock io1 (Some oldPassword) (reopen r') = (Ok tt, r2) ->
     exists e, fst (RootKey io2 r2) = Err e).
Proof.
  intros (k0 & Hk0 & Hne0 & Hd0) HC.
  apply ChangePassword_Ok_inv in HC
    as (ps & kold & knew & salt & m & nonce & c &
        Hps & Hold & Hnew & Hdec & Henc & Hb & Hk' & _).
  assert (kold = k0) by (eapply snacl.decrypt_key; eassumption); subst kold.
  assert (m = K) by congruence; subst m.
  assert (Hc : c <> []) by (eapply snacl.encrypt_nonempty; eassumption).
  assert (Hopen : snacl.Decrypt knew c = Ok K)
    by (eapply snacl.decrypt_encrypt; eassumption).
  edestruct snacl.derive_new as (ps' & Hps' & Hder); [exact Hnew|].
  assert (Hroot : bolt.value defaultRootKeyID (bolt.bucket (DB (self r'))) = c)
    by (rewrite Hb, value_insert_other by apply key_ids_differ;
        apply value_insert_same).
  assert (Hpar : bolt.value encryptionKeyID (bolt.bucket (DB (self r'))) =
                 snacl.Marshal knew)
    by (rewrite Hb; apply value_insert_same).
  assert (Hpar' : bolt.value encryptionKeyID
                    (bolt.bucket (DB (self (reopen r')))) <> [])
    by (cbn; rewrite Hpar; apply snacl.marshal_nonempty).
  (* what any successful unlock of a fresh instance leaves behind *)
  assert (Hunlock : forall io1 password r2,
             CreateUnlock io1 (Some password) (reopen r') = (Ok tt, r2) ->
             exists k, snacl.DeriveKey ps' password = Ok k /\
                       encKey (self r2) = Some k /\
                       bolt.value defaultRootKeyID
                         (bolt.bucket (DB (self r2))) = c).
  { intros io1 password r2 HU.
    apply CreateUnlock_existing_inv in HU
      as (ps2 & k & Hps2 & Hk & Hk2 & Hb2); [|reflexivity|exact Hpar'].
    cbn in Hps2, Hb2; rewrite Hpar, Hps' in Hps2.
    apply Ok_inj in Hps2; subst ps2.
    exists k; repeat split; try assumption.
    rewrite Hb2; exact Hroot. }
  split; [|split; [|split]].
  - rewrite (RootKey_read bolt.healthy _ Hk' Hroot Hc), Hopen; reflexivity.
  - destruct (@CreateUnlock_existing_Ok SC newPassword (reopen r') ps' knew)
      as (r2 & HU); try assumption; try reflexivity.
    { cbn; rewrite Hpar; exact Hps'. }
    exists r2; split; [exact HU|].
    destruct (Hunlock _ _ _ HU) as (k & Hk & Hk2 & Hc2).
    assert (k = knew) by congruence; subst k.
    rewrite (RootKey_read bolt.healthy _ Hk2 Hc2 Hc), Hopen; reflexivity.
  - intros io1 io2 password r2 key id HU HR.
    destruct (Hunlock _ _ _ HU) as (k & Hk & Hk2 & Hc2).
    rewrite (RootKey_read io2 _ Hk2 Hc2 Hc) in HR.
    destruct (bolt.begin_err io2); [discriminate HR|].
    destruct (snacl.Decrypt k c) as [m|e] eqn:Hm; [|discriminate HR].
    destruct (bolt.end_err io2); [discriminate HR|].
    apply Ok_inj, pair_inj in HR as [<- _].
    assert (k = knew) by (eapply snacl.decrypt_key; eassumption); subst k.
    congruence.
  - intros Hdiff io1 io2 r2 HU.
    destruct (Hunlock _ _ _ HU) as (k & Hk & Hk2 & Hc2).
    rewrite (RootKey_read io2 _ Hk2 Hc2 Hc).
    destruct (bolt.begin_err io2); [eauto|].
    destruct (snacl.Decrypt k c) as [m|e] eqn:Hm; [|eauto].
    assert (k = knew) by (eapply snacl.decrypt_key; eassumption); subst k.
    elim Hdiff; eapply snacl.derive_inj; eassumption.
Qed.

End StoreClaims.

(** ** The claims on the store of the specification's scenario *)

(** C3 on a store that was never unlocked. *)
Lemma never_unlocked_store_refuses :
  (forall io id,
     store.Get io id fixture.locked_store =
       (Err ErrStoreLocked, fixture.locked_store)) /\
  (forall io,
     store.RootKey io fixture.locked_store =
       (Err ErrStoreLocked, fixture.locked_store)) /\
  (forall io oldPassword newPassword,
     store.ChangePassword io oldPassword newPassword fixture.locked_store =
       (Err ErrStoreLocked, fixture.locked_store)) /\
  (forall io,
     store.GenerateNewRootKey io fixture.locked_store =
       (Err ErrStoreLocked, fixture.locked_store)).
Proof.
  exact (@locked_store_refuses snacl.Symbolic fixture.locked_store eq_refl).
Defined.

(** C4 on a locked and on an unlocked store. *)
Lemma nil_password_on_both_stores :
  store.CreateUnlock bolt.healthy None fixture.locked_store =
    (Err ErrPasswordRequired, fixture.locked_store) /\
  store.ChangePassword bolt.healthy None (Some fixture.newpw)
    fixture.unlocked_store =
    (Err ErrPasswordRequired, fixture.unlocked_store).
Proof.
  split.
  - apply (proj1 (@nil_password_is_refused snacl.Symbolic fixture.locked_store)).
    reflexivity.
  - apply (proj2 (@nil_password_is_refused snacl.Symbolic fixture.unlocked_store)).
    + intros H; vm_compute in H; discriminate H.
    + left; reflexivity.
Defined.

(** The counterexample to C4 as stated: a present but empty password is
    accepted by [CreateUnlock], which unlocks the store, and by
    [ChangePassword]; and the state of the store is looked at before the
    password, so that a nil password is answered with
    [ErrAlreadyUnlocked] or [ErrStoreLocked] on the wrong state. *)
Lemma empty_password_is_not_refused :
  fst (store.CreateUnlock bolt.healthy (Some []) fixture.locked_store) = Ok tt /\
  store.encKey
    (self (snd (store.CreateUnlock bolt.healthy (Some []) fixture.locked_store)))
    <> None /\
  fst (store.ChangePassword bolt.healthy (Some fixture.hunter2) (Some [])
         fixture.unlocked_store) = Ok tt /\
  fst (store.CreateUnlock bolt.healthy None fixture.unlocked_store) =
    Err ErrAlreadyUnlocked /\
  fst (store.ChangePassword bolt.healthy None None fixture.locked_store) =
    Err ErrStoreLocked.
Proof.
  repeat split; try reflexivity.
  intros H; vm_compute in H; discriminate H.
Qed.

(** C6 on the first two calls of [RootKey] after the unlock. *)
Lemma first_two_root_keys_agree :
  exists ev1 ev2,
    bolt.log (store.DB (self fixture.unlocked_store)) =
      ev1 ++ bolt.log (store.DB (self fixture.opened_store)) /\
    bolt.log (store.DB (self (snd (store.RootKey bolt.healthy
                                     fixture.unlocked_store)))) =
      ev2 ++ bolt.log (store.DB (self fixture.unlocked_store)) /\
    store.writes_of store.defaultRootKeyID ev2 = 0 /\
    store.writes_of store.defaultRootKeyID (ev2 ++ ev1) <= 1 /\
    (bolt.value store.defaultRootKeyID
       (bolt.bucket (store.DB (self fixture.opened_store))) <> [] ->
     store.writes_of store.defaultRootKeyID ev1 = 0).
Proof.
  refine (proj2 (proj2
    (@RootKey_twice snacl.Symbolic Symbolic_Lawful bolt.healthy bolt.healthy
       fixture.opened_store fixture.unlocked_store
       (snd (store.RootKey bolt.healthy fixture.unlocked_store))
       fixture.K1 store.defaultRootKeyID fixture.K1 store.defaultRootKeyID
       _ _))); reflexivity.
Defined.

(** C5 on the scenario of the specification: unlocked with ["hunter2"],
    root key [K1], password changed to ["newpw"]. *)
Lemma hunter2_to_newpw_keeps_K1 :
  fst (store.RootKey bolt.healthy fixture.rekeyed_store) =
    Ok (fixture.K1, store.defaultRootKeyID) /\
  (exists r2,
     store.CreateUnlock bolt.healthy (Some fixture.newpw)
       (store.reopen fixture.rekeyed_store) = (Ok tt, r2) /\
     fst (store.RootKey bolt.healthy r2) =
       Ok (fixture.K1, store.defaultRootKeyID)) /\
  (forall io1 io2 password r2 key id,
     store.CreateUnlock io1 (Some password)
       (store.reopen fixture.rekeyed_store) = (Ok tt, r2) ->
     fst (store.RootKey io2 r2) = Ok (key, id) -> key = fixture.K1) /\
  (fixture.hunter2 <> fixture.newpw ->
   forall io1 io2 r2,
     store.CreateUnlock io1 (Some fixture.hunter2)
       (store.reopen fixture.rekeyed_store) = (Ok tt, r2) ->
     exists e, fst (store.RootKey io2 r2) = Err e).
Proof.
  apply (@ChangePassword_keeps_root_key snacl.Symbolic Symbolic_Lawful
           bolt.healthy fixture.hunter2 fixture.newpw fixture.unlocked_store).
  - exists (repeat x2a 32, fixture.hunter2); repeat split; try reflexivity.
    intros H; vm_compute in H; discriminate H.
  - reflexivity.
Defined.

(** C10 at the failing input: the storage engine fails to commit.  The
    closure has already assigned the key, so the failed [CreateUnlock]
    leaves the store unlocked although nothing was stored (a second
    attempt is answered with [ErrAlreadyUnlocked]), and the failed
    [ChangePassword] leaves the new key in memory over the old
    parameters and ciphertext, which it cannot open. *)
Lemma failed_commit_changes_the_key :
  (fst (store.CreateUnlock fixture.failing_commit (Some fixture.hunter2)
          fixture.locked_store) = Err (ErrForeign "bolt" "write error") /\
   store.encKey (self fixture.locked_store) = None /\
   store.encKey
     (self (snd (store.CreateUnlock fixture.failing_commit
                   (Some fixture.hunter2) fixture.locked_store))) =
     Some (repeat x2a 32, fixture.hunter2) /\
   bolt.bucket
     (store.DB
        (self (snd (store.CreateUnlock fixture.failing_commit
                      (Some fixture.hunter2) fixture.locked_store)))) = [] /\
   fst (store.CreateUnlock bolt.healthy (Some fixture.hunter2)
          (snd (store.CreateUnlock fixture.failing_commit
                  (Some fixture.hunter2) fixture.locked_store))) =
     Err ErrAlreadyUnlocked) /\
  (fst (store.ChangePassword fixture.failing_commit (Some fixture.hunter2)
          (Some fixture.newpw) fixture.unlocked_store) =
     Err (ErrForeign "bolt" "write error") /\
   store.encKey (self fixture.unlocked_store) =
     Some (repeat x2a 32, fixture.hunter2) /\
   store.encKey
     (self (snd (store.ChangePassword fixture.failing_commit
                   (Some fixture.hunter2) (Some fixture.newpw)
                   fixture.unlocked_store))) =
     Some (repeat x2a 32, fixture.newpw) /\
   bolt.bucket
     (store.DB
        (self (snd (store.ChangePassword fixture.failing_commit
                      (Some fixture.hunter2) (Some fixture.newpw)
                      fixture.unlocked_store)))) =
     bolt.bucket (store.DB (self fixture.unlocked_store)) /\
   fst (store.RootKey bolt.healthy
          (snd (store.ChangePassword fixture.failing_commit
                  (Some fixture.hunter2) (Some fixture.newpw)
                  fixture.unlocked_store))) =
     Err snacl.ErrDecryptFailed).
Proof.
  repeat split; vm_compute; reflexivity.
Qed.


(* ================================================================== *)
(** * Part III: further properties of the two stores                   *)
(* ================================================================== *)

(** ** The root-key store *)

(** Close the goal left by a run whose writes are known: the bucket
    after the run is the bucket before it up to those writes. *)
Ltac written :=
  repeat match goal with
         | Hput : bolt.put _ _ _ = Ok _ |- _ => apply put_Ok in Hput; subst
         end;
  tx_simpl;
  rewrite ?value_insert_other by assumption;
  rewrite ?value_insert_same;
  try reflexivity.

Section StoreFurther.
Context {SC : snacl.Scheme}.

Import store.

(** What a successful first [CreateUnlock] did on a store without stored
    parameters. *)
Lemma CreateUnlock_new_inv (io : bolt.Fault) (password : bytes)
    (r r1 : World RootKeyStorage) :
  encKey (self r) = None ->
  bolt.value encryptionKeyID (bolt.bucket (DB (self r))) = [] ->
  CreateUnlock io (Some password) r = (Ok tt, r1) ->
  exists k,
    snacl.NewSecretKey password snacl.DefaultN snacl.DefaultR snacl.DefaultP
      (firstn snacl.KeySize (Reader r)) = Ok k /\
    encKey (self r1) = Some k /\
    bolt.bucket (DB (self r1)) =
      bolt.insert encryptionKeyID (snacl.Marshal k) (bolt.bucket (DB (self r))) /\
    Reader r1 = skipn snacl.KeySize (Reader r).
Proof.
  intros Hk Hnil H; unfold CreateUnlock, CreateUnlock_tx in H.
  tx_unfold; tx_simpl; rewrite Hk, Hnil in H.
  change (0 <? length (@nil byte)) with false in H.
  repeat branch.
  outcome H.
  match goal with
  | Hput : bolt.put _ _ _ = Ok _ |- _ => apply put_Ok in Hput; subst
  end.
  eexists; repeat split; eassumption || reflexivity.
Qed.

(** What a successful [GenerateNewRootKey] did. *)
Lemma GenerateNewRootKey_Ok_inv (io : bolt.Fault) (r r' : World RootKeyStorage) :
  GenerateNewRootKey io r = (Ok tt, r') ->
  exists k nonce c,
    encKey (self r) = Some k /\ encKey (self r') = Some k /\
    RootKeyLen <= length (Reader r) /\
    snacl.Encrypt k nonce (firstn RootKeyLen (Reader r)) = Ok c /\
    bolt.bucket (DB (self r')) =
      bolt.insert defaultRootKeyID c (bolt.bucket (DB (self r))).
Proof.
  intros H; unfold GenerateNewRootKey, GenerateNewRootKey_tx in H.
  tx_unfold; tx_simpl.
  repeat branch.
  outcome H.
  match goal with
  | Hp : (length (Reader r) <? RootKeyLen) = false |- _ =>
      apply Nat.ltb_ge in Hp;
      assert (Hfresh : length (firstn RootKeyLen (Reader r)) = RootKeyLen)
        by (rewrite length_firstn; lia)
  end.
  rewrite (copy_full (make RootKeyLen)) in *
    by (rewrite make_length, Hfresh; reflexivity).
  match goal with
  | Hput : bolt.put _ _ _ = Ok _ |- _ => apply put_Ok in Hput; subst
  end.
  do 3 eexists; repeat split; eassumption || reflexivity.
Qed.

(** [Get] on a store that has a ciphertext under [id]. *)
Lemma Get_read (io : bolt.Fault) (id : bytes) (r : World RootKeyStorage)
    (k : snacl.SecretKey) (c : bytes) :
  encKey (self r) = Some k ->
  bolt.value id (bolt.bucket (DB (self r))) = c ->
  c <> [] ->
  fst (Get io id r) =
    match bolt.begin_err io with
    | Some e => Err e
    | None =>
        match snacl.Decrypt k c with
        | Err e => Err e
        | Ok m =>
            match bolt.end_err io with
            | Some e => Err e
            | None => Ok m
            end
        end
    end.
Proof.
  intros Hk Hc Hne; unfold Get, Get_tx.
  tx_unfold; tx_simpl; rewrite Hk, Hc.
  apply length_eqb_0 in Hne; rewrite Hne.
  destruct (bolt.begin_err io); [reflexivity|].
  destruct (snacl.Decrypt k c) as [m|e]; [|reflexivity].
  tx_simpl; destruct (bolt.end_err io); [reflexivity|].
  tx_simpl; rewrite copy_make; reflexivity.
Qed.

(** X1: once [CreateUnlock] has succeeded the store is unlocked for
    good: every further [CreateUnlock], whatever its password and
    whatever the storage engine does, returns [ErrAlreadyUnlocked] and
    leaves the state as it is. *)
Theorem CreateUnlock_only_once (io : bolt.Fault) (password : option bytes)
    (r r1 : World RootKeyStorage) :
  CreateUnlock io password r = (Ok tt, r1) ->
  forall io' password',
    CreateUnlock io' password' r1 = (Err ErrAlreadyUnlocked, r1).
Proof.
  intros H io' password'; unfold CreateUnlock, CreateUnlock_tx in H.
  tx_unfold; tx_simpl.
  repeat branch; outcome H; unfold CreateUnlock; tx_simpl; reflexivity.
Qed.

(** X3: [CreateUnlock] on a locked store that has stored parameters
    writes nothing and draws no randomness, whatever its outcome.  It
    succeeds only with a password from which [DeriveKey] derives a key
    out of the stored parameters, and that key is then the key in
    memory; a password [DeriveKey] rejects is answered with the error of
    [DeriveKey], and the store stays locked. *)
Theorem CreateUnlock_with_stored_parameters (password : bytes)
    (r : World RootKeyStorage) :
  encKey (self r) = None ->
  bolt.value encryptionKeyID (bolt.bucket (DB (self r))) <> [] ->
  (forall io res r',
     CreateUnlock io (Some password) r = (res, r') ->
     bolt.bucket (DB (self r')) = bolt.bucket (DB (self r)) /\
     Reader r' = Reader r) /\
  (forall io r',
     CreateUnlock io (Some password) r = (Ok tt, r') ->
     exists ps k,
       snacl.Unmarshal
         (bolt.value encryptionKeyID (bolt.bucket (DB (self r)))) = Ok ps /\
       snacl.DeriveKey ps password = Ok k /\
       encKey (self r') = Some k) /\
  (forall io ps e,
     bolt.begin_err io = None ->
     snacl.Unmarshal
       (bolt.value encryptionKeyID (bolt.bucket (DB (self r)))) = Ok ps ->
     snacl.DeriveKey ps password = Err e ->
     fst (CreateUnlock io (Some password) r) = Err e /\
     encKey (self (snd (CreateUnlock io (Some password) r))) = None).
Proof.
  intros Hk Hne; split; [|split].
  - apply length_ltb_0 in Hne.
    intros io res r' H; unfold CreateUnlock, CreateUnlock_tx in H.
    tx_unfold; tx_simpl; rewrite Hk, Hne in H.
    repeat branch; outcome H; split; reflexivity.
  - intros io r' H.
    destruct (@CreateUnlock_existing_inv SC io password r r' Hk Hne H)
      as (ps & k & Hps & Hd & Hk' & _).
    exists ps, k; repeat split; assumption.
  - apply length_ltb_0 in Hne.
    intros io ps e Hio Hps Hd; unfold CreateUnlock, CreateUnlock_tx.
    tx_unfold; tx_simpl; rewrite Hk, Hio, Hne, Hps, Hd; tx_simpl.
    split; [reflexivity|try rewrite Hk; reflexivity].
Qed.

(** X4: [Get] with an id under which nothing is stored (no pair, an
    empty value or a nested bucket) returns the "doesn't exist" error for
    that id once its transaction has begun, and [Get] never changes the
    bucket, the key in memory or [rand.Reader], whatever its outcome. *)
Theorem Get_missing_id (io : bolt.Fault) (id : bytes) (r : World RootKeyStorage) :
  (encKey (self r) <> None ->
   bolt.value id (bolt.bucket (DB (self r))) = [] ->
   bolt.begin_err io = None ->
   fst (Get io id r) = Err (ErrRootKeyMissing id)) /\
  (forall res r',
     Get io id r = (res, r') ->
     bolt.bucket (DB (self r')) = bolt.bucket (DB (self r)) /\
     encKey (self r') = encKey (self r) /\
     Reader r' = Reader r).
Proof.
  split.
  - intros Hk Hnil Hio; unfold Get, Get_tx.
    destruct (encKey (self r)) as [k|]; [|congruence].
    tx_unfold; tx_simpl; rewrite Hnil, Hio; reflexivity.
  - intros res r' H; unfold Get, Get_tx in H.
    tx_unfold; tx_simpl.
    repeat branch; outcome H; repeat split; congruence.
Qed.

(** X6: a call that returns an error has stored nothing: after a failed
    [CreateUnlock], [ChangePassword], [RootKey] or [GenerateNewRootKey]
    the bucket is the bucket of before, also when the failure came after
    the first of several writes or at the commit. *)
Theorem failed_call_stores_nothing (r r' : World RootKeyStorage) (e : error) :
  (forall io password,
     CreateUnlock io password r = (Err e, r') ->
     bolt.bucket (DB (self r')) = bolt.bucket (DB (self r))) /\
  (forall io oldPassword newPassword,
     ChangePassword io oldPassword newPassword r = (Err e, r') ->
     bolt.bucket (DB (self r')) = bolt.bucket (DB (self r))) /\
  (forall io,
     RootKey io r = (Err e, r') ->
     bolt.bucket (DB (self r')) = bolt.bucket (DB (self r))) /\
  (forall io,
     GenerateNewRootKey io r = (Err e, r') ->
     bolt.bucket (DB (self r')) = bolt.bucket (DB (self r))).
Proof.
  repeat split.
  - intros io password H; unfold CreateUnlock, CreateUnlock_tx in H.
    tx_unfold; tx_simpl; repeat branch; outcome H; reflexivity.
  - intros io o n H; unfold ChangePassword, ChangePassword_tx in H.
    tx_unfold; tx_simpl; repeat branch; outcome H; reflexivity.
  - intros io H; unfold RootKey, RootKey_tx in H.
    tx_unfold; tx_simpl; repeat branch; outcome H; reflexivity.
  - intros io H; unfold GenerateNewRootKey, GenerateNewRootKey_tx in H.
    tx_unfold; tx_simpl; repeat branch; outcome H; reflexivity.
Qed.

(** X7: each operation writes under its own keys only.  Whatever the
    outcome, [CreateUnlock] changes no value but the one of ["enckey"],
    [RootKey] and [GenerateNewRootKey] none but the one of ["0"], and
    [ChangePassword] none but these two. *)
Theorem calls_write_their_own_keys (r r' : World RootKeyStorage) (id : bytes) :
  (forall io password res,
     CreateUnlock io password r = (res, r') ->
     bolt.compare id encryptionKeyID <> Eq ->
     bolt.value id (bolt.bucket (DB (self r'))) =
       bolt.value id (bolt.bucket (DB (self r)))) /\
  (forall io res,
     RootKey io r = (res, r') ->
     bolt.compare id defaultRootKeyID <> Eq ->
     bolt.value id (bolt.bucket (DB (self r'))) =
       bolt.value id (bolt.bucket (DB (self r)))) /\
  (forall io res,
     GenerateNewRootKey io r = (res, r') ->
     bolt.compare id defaultRootKeyID <> Eq ->
     bolt.value id (bolt.bucket (DB (self r'))) =
       bolt.value id (bolt.bucket (DB (self r)))) /\
  (forall io oldPassword newPassword res,
     ChangePassword io oldPassword newPassword r = (res, r') ->
     bolt.compare id encryptionKeyID <> Eq ->
     bolt.compare id defaultRootKeyID <> Eq ->
     bolt.value id (bolt.bucket (DB (self r'))) =
       bolt.value id (bolt.bucket (DB (self r)))).
Proof.
  repeat split.
  - intros io password res H Hid; unfold CreateUnlock, CreateUnlock_tx in H.
    tx_unfold; tx_simpl; repeat branch; outcome H; written.
  - intros io res H Hid; unfold RootKey, RootKey_tx in H.
    tx_unfold; tx_simpl; repeat branch; outcome H; written.
  - intros io res H Hid; unfold GenerateNewRootKey, GenerateNewRootKey_tx in H.
    tx_unfold; tx_simpl; repeat branch; outcome H; written.
  - intros io o n res H Hid Hid'; unfold ChangePassword, ChangePassword_tx in H.
    tx_unfold; tx_simpl; repeat branch; outcome H; written.
Qed.

(** X8: [ChangePassword] on an unlocked store from which the stored
    parameters or the stored root key are missing returns
    [ErrEncKeyNotFound] once its transaction has begun, and leaves the
    bucket and the key in memory as they were; so it does on a store
    that was unlocked but never asked for a root key. *)
Theorem ChangePassword_without_records (io : bolt.Fault)
    (oldPassword newPassword : bytes) (r : World RootKeyStorage) :
  encKey (self r) <> None ->
  bolt.begin_err io = None ->
  bolt.value encryptionKeyID (bolt.bucket (DB (self r))) = [] \/
  bolt.value defaultRootKeyID (bolt.bucket (DB (self r))) = [] ->
  fst (ChangePassword io (Some oldPassword) (Some newPassword) r) =
    Err ErrEncKeyNotFound /\
  bolt.bucket
    (DB (self (snd (ChangePassword io (Some oldPassword) (Some newPassword) r)))) =
    bolt.bucket (DB (self r)) /\
  encKey (self (snd (ChangePassword io (Some oldPassword) (Some newPassword) r))) =
    encKey (self r).
Proof.
  intros Hk Hio Hmiss; unfold ChangePassword, ChangePassword_tx.
  destruct (encKey (self r)) as [k|] eqn:Ek; [|congruence].
  tx_unfold; tx_simpl; rewrite Hio.
  assert (Htest :
            (length (bolt.value encryptionKeyID (bolt.bucket (DB (self r)))) =? 0)
            || (length (bolt.value defaultRootKeyID (bolt.bucket (DB (self r)))) =? 0)
            = true).
  { destruct Hmiss as [-> | ->]; cbn [length Nat.eqb orb];
      [reflexivity|apply orb_true_r]. }
  rewrite Htest; tx_simpl; rewrite Ek; repeat split.
Qed.

Context {SL : snacl.Lawful SC}.

(** X2: the first [CreateUnlock] on a store without stored parameters
    stores the parameters of the key it made, and nothing else; a fresh
    instance over the same storage then unlocks with the same password
    to that same key, without writing. *)
Theorem CreateUnlock_create_then_unlock (io : bolt.Fault) (password : bytes)
    (r r1 : World RootKeyStorage) :
  encKey (self r) = None ->
  bolt.value encryptionKeyID (bolt.bucket (DB (self r))) = [] ->
  CreateUnlock io (Some password) r = (Ok tt, r1) ->
  exists k,
    encKey (self r1) = Some k /\
    bolt.value encryptionKeyID (bolt.bucket (DB (self r1))) = snacl.Marshal k /\
    exists r2,
      CreateUnlock bolt.healthy (Some password) (reopen r1) = (Ok tt, r2) /\
      encKey (self r2) = Some k /\
      bolt.bucket (DB (self r2)) = bolt.bucket (DB (self r1)).
Proof.
  intros Hk Hnil H.
  apply CreateUnlock_new_inv in H as (k & Hnew & Hk1 & Hb & _); try assumption.
  exists k; split; [exact Hk1|].
  assert (Hpar : bolt.value encryptionKeyID (bolt.bucket (DB (self r1))) =
                 snacl.Marshal k)
    by (rewrite Hb; apply value_insert_same).
  split; [exact Hpar|].
  edestruct snacl.derive_new as (ps & Hps & Hder); [exact Hnew|].
  assert (Hne : bolt.value encryptionKeyID
                  (bolt.bucket (DB (self (reopen r1)))) <> [])
    by (cbn; rewrite Hpar; apply snacl.marshal_nonempty).
  destruct (@CreateUnlock_existing_Ok SC password (reopen r1) ps k)
    as (r2 & HU); try assumption; try reflexivity.
  { cbn; rewrite Hpar; exact Hps. }
  exists r2; split; [exact HU|].
  apply CreateUnlock_existing_inv in HU
    as (ps2 & k2 & Hps2 & Hk2 & Hk2' & Hb2); [|reflexivity|exact Hne].
  cbn in Hps2, Hb2; rewrite Hpar, Hps in Hps2.
  apply Ok_inj in Hps2; subst ps2.
  split; [congruence|exact Hb2].
Qed.

(** X5: [Get] with the id a successful [RootKey] returned gives the key
    [RootKey] returned. *)
Theorem Get_after_RootKey (io : bolt.Fault) (r r1 : World RootKeyStorage)
    (key id : bytes) :
  RootKey io r = (Ok (key, id), r1) ->
  fst (Get bolt.healthy id r1) = Ok key.
Proof.
  intros H.
  pose proof (RootKey_establishes _ _ H) as (k & Hk & Hne & Hd).
  apply RootKey_Ok_inv in H as (_ & _ & _ & -> & _).
  rewrite (Get_read bolt.healthy _ _ Hk eq_refl Hne), Hd; reflexivity.
Qed.

(** X9: after a successful [GenerateNewRootKey] the root key of the
    store is the 32 bytes it read from [rand.Reader]: [RootKey] and [Get]
    return them, the key in memory is the one of before, and the stored
    parameters are untouched. *)
Theorem GenerateNewRootKey_replaces_root_key (io : bolt.Fault)
    (r r' : World RootKeyStorage) :
  GenerateNewRootKey io r = (Ok tt, r') ->
  length (firstn RootKeyLen (Reader r)) = RootKeyLen /\
  fst (RootKey bolt.healthy r') =
    Ok (firstn RootKeyLen (Reader r), defaultRootKeyID) /\
  fst (Get bolt.healthy defaultRootKeyID r') = Ok (firstn RootKeyLen (Reader r)) /\
  encKey (self r') = encKey (self r) /\
  bolt.value encryptionKeyID (bolt.bucket (DB (self r'))) =
    bolt.value encryptionKeyID (bolt.bucket (DB (self r))).
Proof.
  intros H.
  apply GenerateNewRootKey_Ok_inv in H
    as (k & nonce & c & Hk & Hk' & Hpool & Henc & Hb).
  assert (Hc : c <> []) by (eapply snacl.encrypt_nonempty; eassumption).
  assert (Hopen : snacl.Decrypt k c = Ok (firstn RootKeyLen (Reader r)))
    by (eapply snacl.decrypt_encrypt; eassumption).
  assert (Hroot : bolt.value defaultRootKeyID (bolt.bucket (DB (self r'))) = c)
    by (rewrite Hb; apply value_insert_same).
  split; [rewrite length_firstn; lia|].
  split; [rewrite (RootKey_read bolt.healthy _ Hk' Hroot Hc), Hopen; reflexivity|].
  split; [rewrite (Get_read bolt.healthy _ _ Hk' Hroot Hc), Hopen; reflexivity|].
  split; [congruence|].
  rewrite Hb; apply value_insert_other, key_ids_differ.
Qed.

(** X10: [ChangePassword] checks the old password against what is
    stored: it succeeds only when the old password derives, from the
    stored parameters, the very key the stored root key opens under,
    which on a store that holds a root key is the key in memory. *)
Theorem ChangePassword_checks_old_password (io : bolt.Fault)
    (oldPassword newPassword : bytes) (r r' : World RootKeyStorage)
    (K : bytes) (k0 : snacl.SecretKey) :
  encKey (self r) = Some k0 ->
  holds_root_key r K ->
  ChangePassword io (Some oldPassword) (Some newPassword) r = (Ok tt, r') ->
  exists ps,
    snacl.Unmarshal
      (bolt.value encryptionKeyID (bolt.bucket (DB (self r)))) = Ok ps /\
    snacl.DeriveKey ps oldPassword = Ok k0.
Proof.
  intros Hk0 (k & Hk & _ & Hd) HC.
  assert (k = k0) by congruence; subst k.
  apply ChangePassword_Ok_inv in HC
    as (ps & kold & _ & _ & m & _ & _ & Hps & Hold & _ & Hdec & _).
  assert (kold = k0) by (eapply snacl.decrypt_key; eassumption); subst kold.
  exists ps; split; assumption.
Qed.

(** X11: when [io.ReadFull] cannot read the 32 bytes of a root key
    from [rand.Reader], [GenerateNewRootKey], and [RootKey] on a store
    without a root key, return the error [io.ReadFull] returned, once
    their transaction has begun; nothing is stored, and [rand.Reader]
    is left as the failed read left it. *)
Theorem short_entropy_is_reported (io : bolt.Fault)
    (r r0 : World RootKeyStorage) (e : error) :
  encKey (self r) <> None ->
  bolt.begin_err io = None ->
  rand.ReadFull RootKeyLen r = (Err e, r0) ->
  (fst (GenerateNewRootKey io r) = Err e /\
   bolt.bucket (DB (self (snd (GenerateNewRootKey io r)))) =
     bolt.bucket (DB (self r)) /\
   Reader (snd (GenerateNewRootKey io r)) = Reader r0) /\
  (bolt.value defaultRootKeyID (bolt.bucket (DB (self r))) = [] ->
   fst (RootKey io r) = Err e /\
   bolt.bucket (DB (self (snd (RootKey io r)))) = bolt.bucket (DB (self r)) /\
   Reader (snd (RootKey io r)) = Reader r0).
Proof.
  intros Hk Hio Hread.
  destruct (encKey (self r)) as [k|] eqn:Ek; [|congruence].
  unfold rand.ReadFull in Hread; tx_simpl.
  split.
  - unfold GenerateNewRootKey, GenerateNewRootKey_tx; rewrite Ek.
    tx_unfold; tx_simpl; rewrite Hio.
    destruct (length (Reader r) <? RootKeyLen); [|discriminate Hread].
    destruct (length (Reader r) =? 0); apply pair_inj in Hread as [He <-];
      apply Err_inj in He; subst e; tx_simpl; repeat split.
  - intros Hnil; unfold RootKey, RootKey_tx; rewrite Ek.
    tx_unfold; tx_simpl; rewrite Hio, Hnil.
    cbn [length Nat.eqb negb]; tx_simpl.
    destruct (length (Reader r) <? RootKeyLen); [|discriminate Hread].
    destruct (length (Reader r) =? 0); apply pair_inj in Hread as [He <-];
      apply Err_inj in He; subst e; tx_simpl; repeat split.
Qed.

End StoreFurther.

(** X1 on the store of the scenario: unlocked with ["hunter2"], it
    refuses every further unlock. *)
Lemma opened_store_unlocks_once :
  store.CreateUnlock bolt.healthy (Some fixture.hunter2) fixture.locked_store =
    (Ok tt, fixture.opened_store) /\
  forall io' password',
    store.CreateUnlock io' password' fixture.opened_store =
      (Err ErrAlreadyUnlocked, fixture.opened_store).
Proof.
  split; [reflexivity|].
  apply (@CreateUnlock_only_once snacl.Symbolic bolt.healthy
           (Some fixture.hunter2) fixture.locked_store).
  reflexivity.
Defined.

(** X2 on the never-unlocked store and ["hunter2"]. *)
Lemma locked_store_is_created_then_unlocked :
  exists k,
    store.encKey (self fixture.opened_store) = Some k /\
    bolt.value store.encryptionKeyID
      (bolt.bucket (store.DB (self fixture.opened_store))) = snacl.Marshal k /\
    exists r2,
      store.CreateUnlock bolt.healthy (Some fixture.hunter2)
        (store.reopen fixture.opened_store) = (Ok tt, r2) /\
      store.encKey (self r2) = Some k /\
      bolt.bucket (store.DB (self r2)) =
        bolt.bucket (store.DB (self fixture.opened_store)).
Proof.
  apply (@CreateUnlock_create_then_unlock snacl.Symbolic Symbolic_Lawful
           bolt.healthy fixture.hunter2 fixture.locked_store);
    reflexivity.
Defined.

(** X3 on a fresh instance over the opened store and the wrong
    password: it is answered with "invalid password", the instance
    stays locked and nothing is written. *)
Lemma reopened_store_checks_the_password :
  store.encKey (self (store.reopen fixture.opened_store)) = None /\
  fst (store.CreateUnlock bolt.healthy (Some fixture.newpw)
         (store.reopen fixture.opened_store)) = Err snacl.ErrInvalidPassword /\
  store.encKey
    (self (snd (store.CreateUnlock bolt.healthy (Some fixture.newpw)
                  (store.reopen fixture.opened_store)))) = None /\
  bolt.bucket
    (store.DB
       (self (snd (store.CreateUnlock bolt.healthy (Some fixture.newpw)
                     (store.reopen fixture.opened_store))))) =
    bolt.bucket (store.DB (self fixture.opened_store)).
Proof.
  pose proof (@CreateUnlock_with_stored_parameters snacl.Symbolic
                fixture.newpw (store.reopen fixture.opened_store)) as H.
  destruct H as (Hframe & _ & Hwrong).
  - reflexivity.
  - intros H; vm_compute in H; discriminate H.
  - split; [reflexivity|].
    destruct (Hwrong bolt.healthy (repeat x2a 32, fixture.hunter2)
                snacl.ErrInvalidPassword eq_refl eq_refl eq_refl)
      as [Herr Hlocked].
    split; [exact Herr|split; [exact Hlocked|]].
    exact (proj1 (Hframe bolt.healthy _ _ eq_refl)).
Defined.

(** X4 on the opened store and the id ["1"], under which nothing is
    stored. *)
Lemma id_1_is_missing :
  fst (store.Get bolt.healthy [x31] fixture.opened_store) =
    Err (ErrRootKeyMissing [x31]).
Proof.
  apply (proj1 (@Get_missing_id snacl.Symbolic bolt.healthy [x31]
                  fixture.opened_store)).
  - intros H; vm_compute in H; discriminate H.
  - reflexivity.
  - reflexivity.
Defined.

(** X5 on the opened store: the key of the first [RootKey] is the one
    [Get] returns. *)
Lemma Get_returns_K1 :
  fst (store.Get bolt.healthy store.defaultRootKeyID fixture.unlocked_store) =
    Ok fixture.K1.
Proof.
  apply (@Get_after_RootKey snacl.Symbolic Symbolic_Lawful bolt.healthy
           fixture.opened_store).
  reflexivity.
Defined.

(** X6 on the two calls whose commit fails: the never-unlocked store
    holds no parameters afterwards, and the unlocked one its old
    records. *)
Lemma failed_commit_stores_nothing :
  fst (store.CreateUnlock fixture.failing_commit (Some fixture.hunter2)
         fixture.locked_store) = Err (ErrForeign "bolt" "write error") /\
  bolt.bucket
    (store.DB
       (self (snd (store.CreateUnlock fixture.failing_commit
                     (Some fixture.hunter2) fixture.locked_store)))) = [] /\
  bolt.bucket
    (store.DB
       (self (snd (store.ChangePassword fixture.failing_commit
                     (Some fixture.hunter2) (Some fixture.newpw)
                     fixture.unlocked_store)))) =
    bolt.bucket (store.DB (self fixture.unlocked_store)).
Proof.
  split; [reflexivity|split].
  - apply (proj1 (@failed_call_stores_nothing snacl.Symbolic
                    fixture.locked_store _ (ErrForeign "bolt" "write error"))
             fixture.failing_commit (Some fixture.hunter2)).
    reflexivity.
  - apply (proj1 (proj2 (@failed_call_stores_nothing snacl.Symbolic
                           fixture.unlocked_store _
                           (ErrForeign "bolt" "write error")))
             fixture.failing_commit (Some fixture.hunter2)
             (Some fixture.newpw)).
    reflexivity.
Defined.

(** X7 on the first [RootKey] of the opened store: the stored
    parameters are those of before. *)
Lemma first_RootKey_keeps_the_parameters :
  bolt.value store.encryptionKeyID
    (bolt.bucket (store.DB (self fixture.unlocked_store))) =
  bolt.value store.encryptionKeyID
    (bolt.bucket (store.DB (self fixture.opened_store))).
Proof.
  apply (proj1 (proj2 (@calls_write_their_own_keys snacl.Symbolic
                         fixture.opened_store fixture.unlocked_store
                         store.encryptionKeyID))
           bolt.healthy (Ok (fixture.K1, store.defaultRootKeyID))).
  - reflexivity.
  - intros H; vm_compute in H; discriminate H.
Defined.

(** X8 on the opened store, which has parameters but no root key
    yet. *)
Lemma ChangePassword_before_first_RootKey :
  fst (store.ChangePassword bolt.healthy (Some fixture.hunter2)
         (Some fixture.newpw) fixture.opened_store) = Err ErrEncKeyNotFound /\
  bolt.bucket
    (store.DB
       (self (snd (store.ChangePassword bolt.healthy (Some fixture.hunter2)
                     (Some fixture.newpw) fixture.opened_store)))) =
    bolt.bucket (store.DB (self fixture.opened_store)) /\
  store.encKey
    (self (snd (store.ChangePassword bolt.healthy (Some fixture.hunter2)
                  (Some fixture.newpw) fixture.opened_store))) =
    store.encKey (self fixture.opened_store).
Proof.
  apply (@ChangePassword_without_records snacl.Symbolic bolt.healthy
           fixture.hunter2 fixture.newpw fixture.opened_store).
  - intros H; vm_compute in H; discriminate H.
  - reflexivity.
  - right; reflexivity.
Defined.

(** X9 on the unlocked store: after [GenerateNewRootKey] the root key
    is made of the next 32 bytes of entropy. *)
Lemma rotated_store_has_a_new_key :
  length (firstn store.RootKeyLen (Reader fixture.unlocked_store)) =
    store.RootKeyLen /\
  fst (store.RootKey bolt.healthy sample.rotated_store) =
    Ok (firstn store.RootKeyLen (Reader fixture.unlocked_store),
        store.defaultRootKeyID) /\
  fst (store.Get bolt.healthy store.defaultRootKeyID sample.rotated_store) =
    Ok (firstn store.RootKeyLen (Reader fixture.unlocked_store)) /\
  store.encKey (self sample.rotated_store) =
    store.encKey (self fixture.unlocked_store) /\
  bolt.value store.encryptionKeyID
    (bolt.bucket (store.DB (self sample.rotated_store))) =
  bolt.value store.encryptionKeyID
    (bolt.bucket (store.DB (self fixture.unlocked_store))).
Proof.
  apply (@GenerateNewRootKey_replaces_root_key snacl.Symbolic Symbolic_Lawful
           bolt.healthy fixture.unlocked_store sample.rotated_store).
  reflexivity.
Defined.

(** X10 on the scenario of the specification: the change from
    ["hunter2"] to ["newpw"] went through, so ["hunter2"] derives the
    key the store was unlocked with. *)
Lemma hunter2_was_checked :
  exists ps,
    snacl.Unmarshal
      (bolt.value store.encryptionKeyID
         (bolt.bucket (store.DB (self fixture.unlocked_store)))) = Ok ps /\
    snacl.DeriveKey ps fixture.hunter2 =
      Ok ((repeat x2a 32, fixture.hunter2) : @snacl.SecretKey snacl.Symbolic).
Proof.
  apply (@ChangePassword_checks_old_password snacl.Symbolic Symbolic_Lawful
           bolt.healthy fixture.hunter2 fixture.newpw fixture.unlocked_store
           fixture.rekeyed_store fixture.K1).
  - reflexivity.
  - exists (repeat x2a 32, fixture.hunter2); repeat split; try reflexivity.
    intros H; vm_compute in H; discriminate H.
  - reflexivity.
Defined.

(** X11 on the opened store with one byte of entropy left: the byte is
    read, and [io.ReadFull] returns "unexpected EOF". *)
Lemma drained_store_makes_no_root_key :
  fst (store.GenerateNewRootKey bolt.healthy sample.drained_store) =
    Err rand.ErrUnexpectedEOF /\
  Reader (snd (store.GenerateNewRootKey bolt.healthy sample.drained_store)) =
    [] /\
  fst (store.RootKey bolt.healthy sample.drained_store) =
    Err rand.ErrUnexpectedEOF.
Proof.
  pose proof (@short_entropy_is_reported snacl.Symbolic bolt.healthy
                sample.drained_store
                {| self := self sample.drained_store; Reader := [] |}
                rand.ErrUnexpectedEOF) as H.
  destruct H as [HG HR].
  - intros H; vm_compute in H; discriminate H.
  - reflexivity.
  - reflexivity.
  - split; [exact (proj1 HG)|].
    split; [exact (proj2 (proj2 HG))|].
    exact (proj1 (HR eq_refl)).
Defined.

(** ** The account store *)

Lemma insert_In (k v : bytes) (b : bolt.Bucket) (kv : bytes * option bytes) :
  In kv (bolt.insert k v b) -> kv = (k, Some v) \/ In kv b.
Proof.
  induction b as [|[k0 v0] b IH]; simpl.
  - intros [<-|[]]; auto.
  - destruct (bolt.compare k k0); simpl.
    + intros [<-|H]; auto.
    + intros [<-|H]; auto.
    + intros [<-|H]; auto.
      destruct (IH H); auto.
Qed.

Lemma compare_Lt_trans (a b c : bytes) :
  bolt.compare a b = Lt -> bolt.compare b c = Lt -> bolt.compare a c = Lt.
Proof.
  revert b c; induction a as [|x a IH]; intros [|y b] [|z c];
    cbn [bolt.compare]; try discriminate; try reflexivity.
  destruct (N.compare (Byte.to_N x) (Byte.to_N y)) eqn:Exy; try discriminate.
  - apply N.compare_eq in Exy; rewrite Exy.
    destruct (N.compare (Byte.to_N y) (Byte.to_N z)); try discriminate.
    + apply IH.
    + reflexivity.
  - intros _.
    destruct (N.compare (Byte.to_N y) (Byte.to_N z)) eqn:Eyz; try discriminate.
    + apply N.compare_eq in Eyz; rewrite <- Eyz, Exy; reflexivity.
    + intros _.
      rewrite N.compare_lt_iff in Exy, Eyz.
      assert (Exz : (Byte.to_N x < Byte.to_N z)%N) by lia.
      apply N.compare_lt_iff in Exz; rewrite Exz; reflexivity.
Qed.

Lemma seek_below (k k0 : bytes) (v0 : option bytes) (b : bolt.Bucket) :
  ordered ((k0, v0) :: b) -> bolt.compare k k0 = Lt -> bolt.seek k b = None.
Proof.
  intros [Hall _] Hlt.
  induction b as [|[k1 v1] b IH]; cbn [bolt.seek]; [reflexivity|].
  apply Forall_cons_iff in Hall as [H1 Hall]; cbn [fst] in H1.
  rewrite (@compare_Lt_trans k k0 k1 Hlt H1); apply IH, Hall.
Qed.

Lemma compare_Gt_Lt (a b : bytes) :
  bolt.compare a b = Gt -> bolt.compare b a = Lt.
Proof.
  revert b; induction a as [|x a IH]; intros [|y b]; cbn [bolt.compare];
    try discriminate; try reflexivity.
  rewrite (N.compare_antisym (Byte.to_N x) (Byte.to_N y)).
  destruct (N.compare (Byte.to_N x) (Byte.to_N y)); cbn [CompOpp];
    try discriminate; [apply IH|reflexivity].
Qed.

(** [Put] keeps a bucket in key order. *)
Lemma insert_ordered (k v : bytes) (b : bolt.Bucket) :
  ordered b -> ordered (bolt.insert k v b).
Proof.
  induction b as [|[k0 v0] b IH]; intros Hord; cbn [bolt.insert].
  - split; [constructor|exact I].
  - destruct (bolt.compare k k0) eqn:E.
    + apply compare_eq in E; subst k0; exact Hord.
    + destruct Hord as [Hall Hord]; split; [|split; assumption].
      constructor; [exact E|].
      apply Forall_forall; intros kv Hin.
      apply (@compare_Lt_trans k k0 (fst kv) E).
      exact (proj1 (Forall_forall _ _) Hall kv Hin).
    + destruct Hord as [Hall Hord]; split; [|apply IH, Hord].
      apply Forall_forall; intros kv Hin.
      apply insert_In in Hin as [->|Hin].
      * apply compare_Gt_Lt, E.
      * exact (proj1 (Forall_forall _ _) Hall kv Hin).
Qed.

Lemma insert_length (k v : bytes) (b : bolt.Bucket) :
  ordered b ->
  length (bolt.insert k v b) =
    match bolt.seek k b with
    | Some _ => length b
    | None => S (length b)
    end.
Proof.
  induction b as [|[k0 v0] b IH]; intros Hord;
    cbn [bolt.insert bolt.seek length]; [reflexivity|].
  destruct (bolt.compare k k0) eqn:E; cbn [length].
  - reflexivity.
  - rewrite (@seek_below k k0 v0 b Hord E); reflexivity.
  - destruct Hord as [_ Hord].
    rewrite (IH Hord); destruct (bolt.seek k b); reflexivity.
Qed.

Lemma le_uint_range (bs : bytes) :
  (0 <= binary.le_uint bs < 2 ^ (8 * Z.of_nat (length bs)))%Z.
Proof.
  induction bs as [|b bs IH]; [simpl; lia|].
  cbn [binary.le_uint length].
  pose proof (Z_of_byte_range b) as Hb.
  assert (Hs : (0 <= Z.shiftl (binary.le_uint bs) 8)%Z)
    by (apply Z.shiftl_nonneg; lia).
  split; [apply Z.lor_nonneg; lia|].
  replace (8 * Z.of_nat (S (length bs)))%Z
    with (8 * Z.of_nat (length bs) + 8)%Z by lia.
  set (n := (8 * Z.of_nat (length bs))%Z) in *.
  assert (Hn : (0 <= n)%Z) by (subst n; lia).
  destruct (Z.eq_dec (Z.lor (Z_of_byte b) (Z.shiftl (binary.le_uint bs) 8)) 0)
    as [->|Hnz]; [apply Z.pow_pos_nonneg; lia|].
  apply Z.log2_lt_pow2; [pose proof (Z.lor_nonneg (Z_of_byte b)
                            (Z.shiftl (binary.le_uint bs) 8)); lia|].
  rewrite Z.log2_lor by lia.
  apply Z.max_lub_lt.
  - destruct (Z.eq_dec (Z_of_byte b) 0) as [->|Hb0]; [simpl; lia|].
    apply Z.log2_lt_pow2; [lia|].
    apply Z.lt_le_trans with (2 ^ 8)%Z; [change (2 ^ 8)%Z with 256%Z; lia|].
    apply Z.pow_le_mono_r; lia.
  - destruct (Z.eq_dec (binary.le_uint bs) 0) as [E|Hx0];
      [rewrite E, Z.shiftl_0_l; simpl; lia|].
    rewrite Z.log2_shiftl by lia.
    assert (Z.log2 (binary.le_uint bs) < n)%Z
      by (apply Z.log2_lt_pow2; lia).
    lia.
Qed.

Section LedgerFurther.
Context {TC : time.Codec}.

Import account.

(** [GetAccounts] with a healthy transaction over values that all
    decode. *)
Lemma GetAccounts_healthy (s : World AccountStorage) :
  (forall k v, In (k, Some v) (bolt.bucket (DB (self s))) ->
               fst (Unmarshal v blank) = Ok tt) ->
  fst (GetAccounts bolt.healthy s) = Ok (decoded (bolt.bucket (DB (self s)))).
Proof.
  intros Hall.
  unfold GetAccounts, with_captured, bolt.View, bolt.ForEach.
  tx_simpl.
  rewrite each_readFn_Ok by exact Hall.
  tx_simpl; reflexivity.
Qed.

Lemma decoded_In (items : bolt.Bucket) (k v : bytes) :
  In (k, Some v) items -> In (snd (Unmarshal v blank)) (decoded items).
Proof.
  intros Hin; unfold decoded; apply in_flat_map.
  exists (k, Some v); split; [exact Hin|left; reflexivity].
Qed.

(** X12: the bytes [Marshal] returns are the six fields side by side, as
    its comment lays them out: the 16 bytes of the ID, the type byte, the
    two balances as 8 little-endian bytes each (their low 64 bits), and
    what the two times marshal to, whenever these are 15 bytes long. *)
Theorem Marshal_format (a : OffChainBalanceAccount) (lu ed : bytes) :
  length (ID a) = AccountIDLen ->
  time.MarshalBinary (LastUpdate a) = Ok lu -> length lu = 15 ->
  time.MarshalBinary (ExpirationDate a) = Ok ed -> length ed = 15 ->
  Marshal a =
    Ok (ID a ++ [Type_ a] ++
        binary.le_bytes 8 (InitialBalance a) ++
        binary.le_bytes 8 (CurrentBalance a) ++ lu ++ ed).
Proof.
  intros Hid Hlu Llu Hed Led.
  rewrite (Marshal_layout a Hlu Hed).
  rewrite (copy_full (make 15) lu), (copy_full (make 15) ed),
    (copy_full (make 16) (ID a))
    by (rewrite make_length; unfold AccountIDLen in *; congruence).
  reflexivity.
Qed.

(** X13: what [Unmarshal] makes of a 63-byte blob whose two time fields
    decode: the ID is the first 16 bytes, the type the byte at offset 16,
    the balances the little-endian readings of the bytes from 17 and from
    25, and the account is within the range of its Go types whatever the
    bytes are. *)
Theorem Unmarshal_fields (blob : bytes) (a0 : OffChainBalanceAccount)
    (t1 t2 : time.Time) :
  length blob = 63 ->
  length (ID a0) = AccountIDLen ->
  time.UnmarshalBinary (firstn 15 (skipn 33 blob)) = Ok t1 ->
  time.UnmarshalBinary (firstn 15 (skipn 48 blob)) = Ok t2 ->
  exists a,
    Unmarshal blob a0 = (Ok tt, a) /\
    ID a = firstn 16 blob /\
    Type_ a = nth 16 blob x00 /\
    InitialBalance a = binary.le_uint (firstn 8 (skipn 17 blob)) /\
    CurrentBalance a = binary.le_uint (firstn 8 (skipn 25 blob)) /\
    LastUpdate a = t1 /\ ExpirationDate a = t2 /\
    well_typed a.
Proof.
  intros Hlen Ha0 Ht1 Ht2.
  assert (Hsplit : blob = firstn 16 blob ++ [nth 16 blob x00] ++
                          firstn 8 (skipn 17 blob) ++ firstn 8 (skipn 25 blob) ++
                          firstn 15 (skipn 33 blob) ++ firstn 15 (skipn 48 blob)).
  { do 63 (destruct blob as [|? blob]; [discriminate Hlen|]).
    destruct blob; [reflexivity|discriminate Hlen]. }
  assert (Hid : length (firstn 16 blob) = 16)
    by (rewrite length_firstn; lia).
  assert (Hib : length (firstn 8 (skipn 17 blob)) = 8)
    by (rewrite length_firstn, length_skipn; lia).
  assert (Hcb : length (firstn 8 (skipn 25 blob)) = 8)
    by (rewrite length_firstn, length_skipn; lia).
  assert (Hlu : length (firstn 15 (skipn 33 blob)) = 15)
    by (rewrite length_firstn, length_skipn; lia).
  assert (Hed : length (firstn 15 (skipn 48 blob)) = 15)
    by (rewrite length_firstn, length_skipn; lia).
  pose proof (@Unmarshal_layout TC _ (nth 16 blob x00) _ _ _ _ a0
                Hid Hib Hcb Hlu Hed) as HU.
  rewrite <- Hsplit, Ht1, Ht2 in HU; rewrite HU.
  eexists; split; [reflexivity|].
  unfold plain_fields, well_typed.
  cbn [ID Type_ InitialBalance CurrentBalance LastUpdate ExpirationDate
       set_ID set_Type set_InitialBalance set_CurrentBalance
       set_LastUpdate set_ExpirationDate].
  rewrite copy_full by (unfold AccountIDLen in *; congruence).
  pose proof (le_uint_range (firstn 8 (skipn 17 blob))) as Ri.
  pose proof (le_uint_range (firstn 8 (skipn 25 blob))) as Rc.
  rewrite Hib in Ri; rewrite Hcb in Rc.
  change (8 * Z.of_nat 8)%Z with 64%Z in Ri, Rc.
  repeat split; try reflexivity; try exact Hid; lia.
Qed.

(** [readFn] touches the captured list only. *)
Lemma each_readFn_frame (items : bolt.Bucket) (w : World AccountStorage)
    (acc : list OffChainBalanceAccount) :
  fst (snd (bolt.each readFn items (w, acc))) = w.
Proof.
  revert acc; induction items as [|[k [v|]] items IH]; intros acc;
    cbn [bolt.each]; [reflexivity| |].
  - unfold bind at 1, readFn at 1.
    destruct (Unmarshal v blank) as [[[]|e] a]; [|reflexivity].
    unfold bind, captured, gets, assign, modify; cbn [fst snd].
    apply IH.
  - unfold bind at 1, readFn at 1, ret; apply IH.
Qed.

(** X14: [GetAccount] with an ID under which nothing is stored returns
    [ErrAccNotFound] once its transaction has begun; and neither
    [GetAccount] nor [GetAccounts] changes the bucket or [rand.Reader],
    whatever they return. *)
Theorem GetAccount_missing (io : bolt.Fault) (id : bytes)
    (s : World AccountStorage) :
  (bolt.value id (bolt.bucket (DB (self s))) = [] ->
   bolt.begin_err io = None ->
   fst (GetAccount io id s) = Err ErrAccNotFound) /\
  (bolt.bucket (DB (self (snd (GetAccount io id s)))) =
     bolt.bucket (DB (self s)) /\
   Reader (snd (GetAccount io id s)) = Reader s) /\
  (bolt.bucket (DB (self (snd (GetAccounts io s)))) =
     bolt.bucket (DB (self s)) /\
   Reader (snd (GetAccounts io s)) = Reader s).
Proof.
  split; [|split].
  - intros Hnil Hio; rewrite GetAccount_result, Hio, Hnil; reflexivity.
  - unfold GetAccount, with_captured, bolt.View, bind, bolt.Get, assign,
      modify, throw, ret.
    destruct (bolt.begin_err io); [split; reflexivity|].
    tx_simpl.
    destruct (length (bolt.value id (bolt.bucket (DB (self s)))) =? 0);
      [split; reflexivity|].
    destruct (bolt.end_err io); [split; reflexivity|].
    tx_simpl; destruct (Unmarshal _ blank) as [[u|e] a]; split; reflexivity.
  - unfold GetAccounts, with_captured, bolt.View, bolt.ForEach.
    destruct (bolt.begin_err io); [split; reflexivity|].
    tx_simpl.
    match goal with
    | |- context [bolt.each readFn ?items (?w0, ?acc0)] =>
        pose proof (each_readFn_frame items w0 acc0) as Hframe;
        destruct (bolt.each readFn items (w0, acc0)) as [[u|e] [w acc]]
    end; cbn [fst snd] in Hframe; subst w.
    + destruct (bolt.end_err io); tx_simpl; split; reflexivity.
    + tx_simpl; split; reflexivity.
Qed.

(** X15: a [NewAccount] that returns an error has stored nothing; and
    it returns package time's error, having stored nothing, when the
    creation time marshals and the expiration date does not. *)
Theorem NewAccount_failure_stores_nothing (io : bolt.Fault) (now : time.Time)
    (balance : Z) (expirationDate : time.Time) (s : World AccountStorage) :
  (forall e s',
     NewAccount io now balance expirationDate s = Some (Err e, s') ->
     bolt.bucket (DB (self s')) = bolt.bucket (DB (self s))) /\
  (forall lu e,
     AccountIDLen <= length (Reader s) ->
     bolt.begin_err io = None ->
     time.MarshalBinary now = Ok lu ->
     time.MarshalBinary expirationDate = Err e ->
     exists s',
       NewAccount io now balance expirationDate s = Some (Err e, s') /\
       bolt.bucket (DB (self s')) = bolt.bucket (DB (self s))).
Proof.
  assert (Hkeep : forall e s',
            NewAccount io now balance expirationDate s = Some (Err e, s') ->
            bolt.bucket (DB (self s')) = bolt.bucket (DB (self s))).
  { intros e s'; unfold NewAccount, rand.Read, rand.ReadFull; tx_simpl.
    destruct (length (Reader s) <? AccountIDLen).
    { destruct (length (Reader s) =? 0); discriminate. }
    unfold bolt.Update, bind, try, bolt.Put; tx_simpl.
    destruct (bolt.begin_err io).
    { intros E; injection E as _ <-; reflexivity. }
    destruct (Marshal _) as [blob|e1].
    + destruct (bolt.put _ blob _) as [b'|e2].
      * destruct (bolt.end_err io); [|discriminate].
        intros E; injection E as _ <-; reflexivity.
      * intros E; injection E as _ <-; reflexivity.
    + intros E; injection E as _ <-; reflexivity. }
  split; [exact Hkeep|].
  intros lu e Hpool Hio Hnow Hexp.
  assert (Hret : exists s',
            NewAccount io now balance expirationDate s = Some (Err e, s')).
  { unfold NewAccount, rand.Read, rand.ReadFull; tx_simpl.
    apply Nat.ltb_ge in Hpool; rewrite Hpool.
    unfold bolt.Update, bind, try, bolt.Put; tx_simpl; rewrite Hio.
    unfold Marshal; cbn [LastUpdate ExpirationDate set_ID].
    rewrite Hnow, Hexp; tx_simpl; eexists; reflexivity. }
  destruct Hret as (s' & Hs'); exists s'; split; [exact Hs'|].
  exact (Hkeep e s' Hs').
Qed.

(** X16: a successful [NewAccount] leaves every other account as it
    was: [GetAccount] with an ID other than the new one returns what it
    returned before. *)
Theorem NewAccount_keeps_other_accounts (io : bolt.Fault) (now : time.Time)
    (balance : Z) (expirationDate : time.Time)
    (s s' : World AccountStorage) (a : OffChainBalanceAccount) :
  NewAccount io now balance expirationDate s = Some (Ok a, s') ->
  forall io' id,
    id <> ID a ->
    fst (GetAccount io' id s') = fst (GetAccount io' id s).
Proof.
  intros H io' id Hid.
  apply NewAccount_Ok_inv in H as (_ & _ & _ & blob & _ & Hb).
  rewrite !GetAccount_result, Hb.
  rewrite value_insert_other; [reflexivity|].
  intros E; apply Hid, compare_eq, E.
Qed.

(** X17: [NewAccount] does not look for an account under the ID it
    drew: when one is stored there it is replaced, and the bucket holds
    as many pairs as before; otherwise it holds one more.  The bucket
    stays in key order. *)
Theorem NewAccount_replaces_on_collision (io : bolt.Fault) (now : time.Time)
    (balance : Z) (expirationDate : time.Time)
    (s s' : World AccountStorage) (a : OffChainBalanceAccount) :
  ordered (bolt.bucket (DB (self s))) ->
  NewAccount io now balance expirationDate s = Some (Ok a, s') ->
  exists blob,
    Marshal a = Ok blob /\
    bolt.value (ID a) (bolt.bucket (DB (self s'))) = blob /\
    length (bolt.bucket (DB (self s'))) =
      match bolt.seek (ID a) (bolt.bucket (DB (self s))) with
      | Some _ => length (bolt.bucket (DB (self s)))
      | None => S (length (bolt.bucket (DB (self s))))
      end /\
    ordered (bolt.bucket (DB (self s'))).
Proof.
  intros Hord H.
  apply NewAccount_Ok_inv in H as (_ & _ & _ & blob & HM & Hb).
  exists blob; rewrite Hb; repeat split.
  - exact HM.
  - apply value_insert_same.
  - apply insert_length, Hord.
  - apply insert_ordered, Hord.
Qed.

(** X18: after a successful [NewAccount] whose two times the 15-byte
    fields of the record carry, on a store whose values all decode,
    [GetAccounts] succeeds and lists an account with the fields of the
    new one; on a store that was empty it lists that account alone, as
    the repository's test expects. *)
Theorem NewAccount_then_GetAccounts (io : bolt.Fault) (now : time.Time)
    (balance : Z) (expirationDate : time.Time)
    (s s' : World AccountStorage) (a : OffChainBalanceAccount) :
  (0 <= balance < 2 ^ 64)%Z ->
  carried now -> carried expirationDate ->
  (forall k v, In (k, Some v) (bolt.bucket (DB (self s))) ->
               fst (Unmarshal v blank) = Ok tt) ->
  NewAccount io now balance expirationDate s = Some (Ok a, s') ->
  exists accounts a',
    fst (GetAccounts bolt.healthy s') = Ok accounts /\
    In a' accounts /\ same_account a a' /\
    (bolt.bucket (DB (self s)) = [] -> accounts = [a']).
Proof.
  intros Hbal Hnow Hexp Hall H.
  apply NewAccount_Ok_inv in H as (Ha & Hid & _ & blob & HM & Hb).
  assert (Hwt : well_typed a)
    by (subst a; repeat split; try exact Hid; apply Hbal).
  destruct (@Unmarshal_of_Marshal TC a Hwt) as (blob' & HM' & Hrt).
  { subst a; exact Hnow. }
  { subst a; exact Hexp. }
  rewrite HM in HM'; apply Ok_inj in HM'; subst blob'.
  destruct (Hrt blank (make_length _)) as (a' & Ha' & Hsame).
  exists (decoded (bolt.bucket (DB (self s')))), a'.
  split; [|split; [|split; [exact Hsame|]]].
  - apply GetAccounts_healthy; rewrite Hb.
    intros k v Hin; apply insert_In in Hin as [E|Hin].
    + injection E as -> ->; rewrite Ha'; reflexivity.
    + exact (Hall k v Hin).
  - replace a' with (snd (Unmarshal blob blank)) by (rewrite Ha'; reflexivity).
    apply (decoded_In _ (ID a)); rewrite Hb.
    clear; induction (bolt.bucket (DB (self s))) as [|[k0 v0] b IH]; simpl.
    + left; reflexivity.
    + destruct (bolt.compare (ID a) k0); simpl; auto.
  - intros Hempty; rewrite Hb, Hempty; cbn.
    rewrite Ha'; reflexivity.
Qed.

End LedgerFurther.

(** X12 on the account of the repository's test: its 63 bytes on
    disk. *)
Lemma bytes_of_account9735 :
  account.Marshal (TC := time.Go) fixture.account9735 =
    Ok (fixture.id16 ++ [x01] ++
        [x07; x26; x00; x00; x00; x00; x00; x00] ++
        [x07; x26; x00; x00; x00; x00; x00; x00] ++
        [x01; x00; x00; x00; x0e; xd2; xca; x10;
         x80; x00; x00; x00; x05; x00; x78] ++
        [x01; x00; x00; x00; x0e; xd2; xcc; x3f;
         x40; x00; x00; x00; x00; xff; xff]).
Proof.
  apply (@Marshal_format time.Go fixture.account9735
           [x01; x00; x00; x00; x0e; xd2; xca; x10;
            x80; x00; x00; x00; x05; x00; x78]
           [x01; x00; x00; x00; x0e; xd2; xcc; x3f;
            x40; x00; x00; x00; x00; xff; xff]);
    reflexivity.
Defined.

(** X13 on a blob of type byte 2 with zero balances and the zero
    instant in both time fields. *)
Lemma fields_of_a_periodic_blob :
  exists a,
    account.Unmarshal (TC := time.Go) (fixture.blob_of_type x02) account.blank =
      (Ok tt, a) /\
    account.ID a = fixture.id16 /\
    account.Type_ a = account.PeriodicBalance /\
    account.InitialBalance a = 0%Z /\
    account.CurrentBalance a = 0%Z /\
    account.LastUpdate a = time.wallclock 0 0 None /\
    account.ExpirationDate a = time.wallclock 0 0 None /\
    account.well_typed a.
Proof.
  exact (@Unmarshal_fields time.Go (fixture.blob_of_type x02) account.blank
           (time.wallclock 0 0 None) (time.wallclock 0 0 None)
           eq_refl eq_refl eq_refl eq_refl).
Defined.

(** X14 on the empty store. *)
Lemma empty_ledger_has_no_account :
  fst (account.GetAccount (TC := time.Go) bolt.healthy fixture.id16
         fixture.fresh_ledger) = Err ErrAccNotFound.
Proof.
  apply (proj1 (@GetAccount_missing time.Go bolt.healthy fixture.id16
                  fixture.fresh_ledger)); reflexivity.
Defined.

(** X15 on an expiration date in a zone one minute west of UTC, which
    package time refuses to marshal. *)
Lemma unmarshalable_date_is_not_stored :
  exists s',
    account.NewAccount (TC := time.Go) bolt.healthy fixture.created 9735
      sample.minus_one_minute fixture.fresh_ledger =
      Some (Err (ErrForeign "time" "Time.MarshalBinary: unexpected zone offset"),
            s') /\
    bolt.bucket (account.DB (self s')) = [].
Proof.
  apply (proj2 (@NewAccount_failure_stores_nothing time.Go bolt.healthy
                  fixture.created 9735%Z sample.minus_one_minute
                  fixture.fresh_ledger)
           [x01; x00; x00; x00; x0e; xd2; xca; x10;
            x80; x00; x00; x00; x05; x00; x78]);
    reflexivity.
Defined.

(** X16 on a store that holds an account under another key: it is
    fetched as before once the new account is stored. *)
Lemma other_account_is_kept :
  exists s',
    account.NewAccount (TC := time.Go) bolt.healthy fixture.created 9735
      fixture.testExpDate sample.crowded_ledger =
      Some (Ok fixture.account9735, s') /\
    fst (account.GetAccount (TC := time.Go) bolt.healthy [xff] s') =
    fst (account.GetAccount (TC := time.Go) bolt.healthy [xff]
           sample.crowded_ledger).
Proof.
  eexists; split; [reflexivity|].
  apply (@NewAccount_keeps_other_accounts time.Go bolt.healthy fixture.created
           9735%Z fixture.testExpDate sample.crowded_ledger _
           fixture.account9735).
  - reflexivity.
  - intros H; discriminate H.
Defined.

(** X17 on a store that already holds an account under the ID drawn:
    two pairs before, two pairs after. *)
Lemma drawn_ID_was_taken :
  exists s',
    account.NewAccount (TC := time.Go) bolt.healthy fixture.created 9735
      fixture.testExpDate sample.crowded_ledger =
      Some (Ok fixture.account9735, s') /\
    exists blob,
      account.Marshal (TC := time.Go) fixture.account9735 = Ok blob /\
      bolt.value fixture.id16 (bolt.bucket (account.DB (self s'))) = blob /\
      length (bolt.bucket (account.DB (self s'))) = 2 /\
      ordered (bolt.bucket (account.DB (self s'))).
Proof.
  eexists; split; [reflexivity|].
  apply (@NewAccount_replaces_on_collision time.Go bolt.healthy fixture.created
           9735%Z fixture.testExpDate sample.crowded_ledger _
           fixture.account9735).
  - split; [constructor; [reflexivity|constructor]|].
    split; [constructor|exact I].
  - reflexivity.
Defined.

(** X18 on the scenario of the repository's test: one account created
    in an empty store, one account listed. *)
Lemma one_account_is_listed :
  exists s',
    account.NewAccount (TC := time.Go) bolt.healthy fixture.created 9735
      fixture.testExpDate fixture.fresh_ledger =
      Some (Ok fixture.account9735, s') /\
    exists a',
      fst (account.GetAccounts (TC := time.Go) bolt.healthy s') = Ok [a'] /\
      account.same_account fixture.account9735 a'.
Proof.
  eexists; split; [reflexivity|].
  match goal with
  | |- context [account.GetAccounts _ ?s'] =>
      destruct (@NewAccount_then_GetAccounts time.Go bolt.healthy
                  fixture.created 9735%Z fixture.testExpDate
                  fixture.fresh_ledger s' fixture.account9735)
        as (accounts & a' & Hlist & _ & Hsame & Hone)
  end.
  - lia.
  - do 2 eexists; repeat split; reflexivity.
  - do 2 eexists; repeat split; reflexivity.
  - intros k v [].
  - reflexivity.
  - exists a'; split; [|exact Hsame].
    rewrite <- (Hone eq_refl); exact Hlist.
Defined.
